(** * mgo-statsd: the sampling-and-forwarding cycle of [main.go]

    A shallow embedding of [main.go].  Every call that leaves the
    program (the mgo session, the statsd client, standard output, the
    ticker) is recorded in a log together with the answer the outside
    world gave; the outside world is an arbitrary deterministic oracle
    that may look at the whole history.  The functions of [main.go] are
    written in a small state-and-panic monad over that world, one
    definition per Go function, under the Go names. *)

From Stdlib Require Import ZArith List String Ascii Bool Lia QArith.
From Stdlib Require Import DecimalString.
Import ListNotations.

Set Implicit Arguments.
Local Open Scope string_scope.
Local Open Scope Z_scope.
Local Open Scope list_scope.

(** ** Go values *)

(** Go's [int64]: integers are kept in [Z], the conversion [int64(x)]
    wraps into the signed 64-bit range. *)
Module Int64.
Definition modulus : Z := 2 ^ 64.
Definition min_int : Z := - 2 ^ 63.
Definition max_int : Z := 2 ^ 63 - 1.

Definition in_range (z : Z) : Prop := min_int <= z <= max_int.

Definition in_rangeb (z : Z) : bool := (min_int <=? z) && (z <=? max_int).

Definition wrap (z : Z) : Z := (z - min_int) mod modulus + min_int.
End Int64.

(** The conversion [int64(x)] of the source. *)
Definition int64 (z : Z) : Z := Int64.wrap z.

(** Go's [error] interface value: [None] is [nil], [Some msg] an error
    whose [Error()] text is [msg]. *)
Definition error : Type := option string.

(** [len(s) > 0] on a Go string. *)
Definition len (s : string) : Z := Z.of_nat (String.length s).

(** ** The status document (lines 14-69) *)

Module Connections.
Record t := Build {
  Current : Z;
  Available : Z;
  TotalCreated : Z
}.
End Connections.

Module Mem.
Record t := Build {
  Resident : Z;
  Virtual : Z;
  Mapped : Z;
  MappedWithJournal : Z
}.
End Mem.

Module RWT.
Record t := Build {
  Readers : Z;
  Writers : Z;
  Total : Z
}.
End RWT.

Module GlobalLock.
Record t := Build {
  TotalTime : Z;
  LockTime : Z;
  CurrentQueue : RWT.t;
  ActiveClients : RWT.t
}.
End GlobalLock.

Module Opcounters.
Record t := Build {
  Insert : Z;
  Query : Z;
  Update : Z;
  Delete : Z;
  GetMore : Z;
  Command : Z
}.
End Opcounters.

Module ExtraInfo.
Record t := Build {
  PageFaults : Z;
  HeapUsageInBytes : Z
}.
End ExtraInfo.

Module ServerStatus.
Record t := Build {
  Host : string;
  Version : string;
  Process : string;
  Pid : Z;
  Uptime : Z;
  UptimeInMillis : Z;
  UptimeEstimate : Z;
  LocalTime : Z;
  Connections : Connections.t;
  ExtraInfo : ExtraInfo.t;
  Mem : Mem.t;
  GlobalLocks : GlobalLock.t;
  Opcounters : Opcounters.t;
  OpcountersReplicaSet : Opcounters.t
}.
End ServerStatus.

(** ** Configuration *)

(** Modelled from the spec: the configuration types [Mongo], [Statsd]
    and the value returned by [LoadConfig] are declared outside
    [main.go]; the fields are the ones [main.go] reads (section 6 of the
    specification: interval, addresses, user, pass, host, port, env,
    cluster). *)
Module Mongo.
Record t := Build {
  Addresses : list string;
  User : string;
  Pass : string
}.
End Mongo.

Module Statsd.
Record t := Build {
  Host : string;
  Port : Z;
  Env : string;
  Cluster : string
}.
End Statsd.

Module Config.
Record t := Build {
  Interval : Z;
  Mongo : Mongo.t;
  Statsd : Statsd.t
}.
End Config.

(** ** The outside world *)

(** [mgo.DialInfo] and [mgo.Credential], with the fields the source
    sets; the timeout is in seconds. *)
Record DialInfo := {
  Addrs : list string;
  Direct : bool;
  Timeout : Z
}.

Record Credential := {
  Username : string;
  Password : string
}.

Inductive Mode := Eventual | Monotonic | Strong.

(** The value [statsd.NewClient] hands back: a client bound to an
    address and to the namespace prefix put before every stat name. *)
Record Client := {
  client_addr : string;
  client_prefix : string
}.

(** One call leaving the program. *)
Inductive Call :=
| CDialWithInfo (info : DialInfo)
| CLogin (cred : Credential)
| CSetMode (mode : Mode) (refresh : bool)
| CRun (cmd : string)
| CSessionClose
| CNewClient (addr prefix : string)
| CGauge (client : Client) (stat : string) (value : Z) (rate : Q)
| CClientClose (client : Client)
| CPrintln (line : string)
| CTickerStop.

(** A log entry: the call and the error it came back with. *)
Definition Entry : Type := Call * error.

(** The environment answers every call from the history so far; the
    document decoded by a successful [Run] is its second component. *)
Record Env := {
  answer : list Entry -> Call -> error;
  document : list Entry -> ServerStatus.t
}.

Record World := {
  env : Env;
  log : list Entry
}.

(** ** The monad: state passing over the world, with panics *)

Inductive Outcome (A : Type) :=
| Returns (a : A)
| Panics (v : string).

Arguments Panics {A} v.

Definition Go (A : Type) : Type := World -> World * Outcome A.

Definition ret {A} (a : A) : Go A := fun w => (w, Returns a).

Definition bind {A B} (c : Go A) (k : A -> Go B) : Go B :=
  fun w =>
    match c w with
    | (w1, Returns a) => k a w1
    | (w1, Panics v) => (w1, Panics v)
    end.

Definition panic {A} (v : string) : Go A := fun w => (w, Panics v).

(** [defer d] placed before [body]: [d] runs when [body] returns and
    when it panics; what [d] returns is dropped. *)
Definition defer {A B} (d : Go B) (body : Go A) : Go A :=
  fun w =>
    match body w with
    | (w1, r) => (fst (d w1), r)
    end.

(** An external call: ask the environment, append the entry. *)
Definition perform (c : Call) : Go error :=
  fun w =>
    let e := answer (env w) (log w) c in
    ({| env := env w; log := log w ++ [(c, e)] |}, Returns e).

Declare Scope go_scope.
Delimit Scope go_scope with go.
Notation "x <- c ;; k" := (bind c (fun x => k))
  (at level 61, c at next level, right associativity) : go_scope.
Notation "c ;; k" := (bind c (fun _ => k))
  (at level 61, right associativity) : go_scope.

(** [err = c; if err != nil { return err }; k] *)
Definition orReturn (c : Go error) (k : Go error) : Go error :=
  bind c (fun err => match err with
                     | Some _ => ret err
                     | None => k
                     end).
Notation "'guard!' c ;; k" := (orReturn c k)
  (at level 61, c at next level, right associativity) : go_scope.

Local Open Scope go_scope.

(** ** The libraries the source calls *)

(** The mgo driver is an outside library: each of its operations is an
    external call, answered by the environment. *)
Module mgo.
Definition DialWithInfo (info : DialInfo) : Go error :=
  perform (CDialWithInfo info).
Definition Login (cred : Credential) : Go error := perform (CLogin cred).
Definition SetMode (mode : Mode) (refresh : bool) : Go error :=
  perform (CSetMode mode refresh).
(** [session.Run(cmd, &s)]: the error, and the decoded document. *)
Definition Run (cmd : string) : Go (ServerStatus.t * error) :=
  fun w =>
    match perform (CRun cmd) w with
    | (w1, Returns e) => (w1, Returns (document (env w) (log w), e))
    | (w1, Panics v) => (w1, Panics v)
    end.
Definition Close : Go error := perform CSessionClose.
End mgo.

Module statsd.
(** The statsd client is an outside library too: constructing a client,
    a gauge and the close are external calls; the client value records
    the address and the prefix it was made with. *)
Definition NewClient (addr prefix : string) : Go (Client * error) :=
  err <- perform (CNewClient addr prefix) ;;
  ret ({| client_addr := addr; client_prefix := prefix |}, err).
Definition Gauge (client : Client) (stat : string) (value : Z) (rate : Q)
  : Go error :=
  perform (CGauge client stat value rate).
Definition Close (client : Client) : Go error :=
  perform (CClientClose client).
End statsd.

Module fmt.
(** [%d] of an integer. *)
Definition decimal (n : Z) : string := NilZero.string_of_int (Z.to_int n).
(** [fmt.Sprintf("%s.%s", a, b)] *)
Definition Sprintf_s_dot_s (a b : string) : string := (a ++ "." ++ b)%string.
(** [fmt.Sprintf("%s:%d", a, n)] *)
Definition Sprintf_s_colon_d (a : string) (n : Z) : string :=
  (a ++ ":" ++ decimal n)%string.
Definition Println (line : string) : Go error := perform (CPrintln line).
End fmt.

(** ** [main.go], function by function *)

(** Lines 71-100.  A failed dial, login or query panics; the session is
    closed by the deferred call in every case after a successful dial. *)
Definition serverStatus (mongo_config : Mongo.t) : Go ServerStatus.t :=
  let info := {| Addrs := Mongo.Addresses mongo_config;
                 Direct := false;
                 Timeout := 30 |} in
  err <- mgo.DialWithInfo info ;;
  match err with
  | Some e => panic e
  | None =>
    defer mgo.Close
      ((if 0 <? len (Mongo.User mongo_config)
        then
          let cred := {| Username := Mongo.User mongo_config;
                         Password := Mongo.Pass mongo_config |} in
          err <- mgo.Login cred ;;
          match err with
          | Some e => panic e
          | None => ret tt
          end
        else ret tt) ;;
       mgo.SetMode Monotonic true ;;
       r <- mgo.Run "serverStatus" ;;
       match snd r with
       | Some e => panic e
       | None => ret (fst r)
       end)
  end.

(** Lines 102-121. *)
Definition pushConnections (client : Client) (connections : Connections.t)
  : Go error :=
  guard! statsd.Gauge client "connections.current"
           (int64 (Connections.Current connections)) 1.0 ;;
  guard! statsd.Gauge client "connections.available"
           (int64 (Connections.Available connections)) 1.0 ;;
  guard! statsd.Gauge client "connections.created"
           (int64 (Connections.TotalCreated connections)) 1.0 ;;
  ret None.

(** Lines 123-158. *)
Definition pushOpcounters (client : Client) (opscounters : Opcounters.t)
  : Go error :=
  guard! statsd.Gauge client "ops.inserts" (Opcounters.Insert opscounters) 1.0 ;;
  guard! statsd.Gauge client "ops.queries" (Opcounters.Query opscounters) 1.0 ;;
  guard! statsd.Gauge client "ops.updates" (Opcounters.Update opscounters) 1.0 ;;
  guard! statsd.Gauge client "ops.deletes" (Opcounters.Delete opscounters) 1.0 ;;
  guard! statsd.Gauge client "ops.getmores" (Opcounters.GetMore opscounters) 1.0 ;;
  guard! statsd.Gauge client "ops.commands" (Opcounters.Command opscounters) 1.0 ;;
  ret None.

(** Lines 160-184. *)
Definition pushMem (client : Client) (mem : Mem.t) : Go error :=
  guard! statsd.Gauge client "mem.resident" (Mem.Resident mem) 1.0 ;;
  guard! statsd.Gauge client "mem.virtual" (Mem.Virtual mem) 1.0 ;;
  guard! statsd.Gauge client "mem.mapped" (Mem.Mapped mem) 1.0 ;;
  guard! statsd.Gauge client "mem.mapped_with_journal"
           (Mem.MappedWithJournal mem) 1.0 ;;
  ret None.

(** Lines 186-230. *)
Definition pushGlobalLocks (client : Client) (glob : GlobalLock.t) : Go error :=
  guard! statsd.Gauge client "global_lock.total_time"
           (GlobalLock.TotalTime glob) 1.0 ;;
  guard! statsd.Gauge client "global_lock.lock_time"
           (GlobalLock.LockTime glob) 1.0 ;;
  guard! statsd.Gauge client "global_lock.active_readers"
           (RWT.Readers (GlobalLock.ActiveClients glob)) 1.0 ;;
  guard! statsd.Gauge client "global_lock.active_writers"
           (RWT.Writers (GlobalLock.ActiveClients glob)) 1.0 ;;
  guard! statsd.Gauge client "global_lock.active_total"
           (RWT.Total (GlobalLock.ActiveClients glob)) 1.0 ;;
  guard! statsd.Gauge client "global_lock.queued_readers"
           (RWT.Readers (GlobalLock.CurrentQueue glob)) 1.0 ;;
  guard! statsd.Gauge client "global_lock.queued_writers"
           (RWT.Writers (GlobalLock.CurrentQueue glob)) 1.0 ;;
  guard! statsd.Gauge client "global_lock.queued_total"
           (RWT.Total (GlobalLock.CurrentQueue glob)) 1.0 ;;
  ret None.

(** Lines 232-246. *)
Definition pushExtraInfo (client : Client) (info : ExtraInfo.t) : Go error :=
  guard! statsd.Gauge client "extra.page_faults"
           (ExtraInfo.PageFaults info) 1.0 ;;
  guard! statsd.Gauge client "extra.heap_usage"
           (ExtraInfo.HeapUsageInBytes info) 1.0 ;;
  ret None.

(** Lines 248-287.  The deferred [client.Close()] is registered only
    after [NewClient] has succeeded. *)
Definition pushStats (statsd_config : Statsd.t) (status : ServerStatus.t)
  : Go error :=
  let prefix := Statsd.Env statsd_config in
  let prefix :=
    if 0 <? len (Statsd.Cluster statsd_config)
    then fmt.Sprintf_s_dot_s prefix (Statsd.Cluster statsd_config)
    else prefix in
  let prefix := fmt.Sprintf_s_dot_s prefix (ServerStatus.Host status) in
  let host_port :=
    fmt.Sprintf_s_colon_d (Statsd.Host statsd_config)
                          (Statsd.Port statsd_config) in
  r <- statsd.NewClient host_port prefix ;;
  let client := fst r in
  match snd r with
  | Some e => ret (Some e)
  | None =>
    defer (statsd.Close client)
      (guard! pushConnections client (ServerStatus.Connections status) ;;
       guard! pushOpcounters client (ServerStatus.Opcounters status) ;;
       guard! pushMem client (ServerStatus.Mem status) ;;
       guard! pushGlobalLocks client (ServerStatus.GlobalLocks status) ;;
       guard! pushExtraInfo client (ServerStatus.ExtraInfo status) ;;
       ret None)
  end.

(** Line 298-301: the body of the [case <-ticker.C] branch.  Go
    evaluates the argument [serverStatus(config.Mongo)] before it calls
    [pushStats]. *)
Definition tickCase (config : Config.t) : Go unit :=
  status <- serverStatus (Config.Mongo config) ;;
  err <- pushStats (Config.Statsd config) status ;;
  match err with
  | Some e => fmt.Println e ;; ret tt
  | None => ret tt
  end.

(** ** [main] (lines 289-314) as a transition system

    Two goroutines run: [main], blocked on [<-ch] until a signal comes,
    and the loop goroutine, blocked in [select].  The scheduler, the
    ticker and the operating system choose which of them moves; each
    choice is a label, and [step] runs the statement the label names.
    The process ends when [main] returns (Go does not wait for other
    goroutines) or when a panic is not recovered.

    In [step] a cycle that was taken runs to its end before anything
    else moves.  The process with the cycle interleaved call by call is
    [move], further down; every run of [step] is one of its runs
    ([run_interleaved]). *)

(** The signals [signal.Notify] registers on [ch] (line 310). *)
Inductive Signal := SIGINT | SIGTERM | SIGQUIT.

(** [sig.String()] for [syscall.Signal] (the table of package syscall
    on Linux). *)
Definition Signal_String (sig : Signal) : string :=
  match sig with
  | SIGINT => "interrupt"
  | SIGTERM => "terminated"
  | SIGQUIT => "quit"
  end.

(** Where [main] stands: before line 311 completes, before 312, before
    313, before it returns, and after. *)
Inductive MainPC :=
| AwaitSignal
| GotSignal (sig : Signal)
| Announced
| QuitClosed
| MainReturned.

Inductive LoopPC := Selecting | LoopReturned.

Inductive Proc := Running | Exited | Crashed (v : string).

Record Sched := {
  world : World;
  main_pc : MainPC;
  loop_pc : LoopPC;
  quit_closed : bool;
  tick_pending : bool;
  ticker_running : bool;
  proc : Proc
}.

Inductive Label :=
| TickerFires
| SignalArrives (sig : Signal)
| MainSteps
| LoopTakesTick
| LoopTakesQuit.

Definition is_running (p : Proc) : bool :=
  match p with
  | Running => true
  | _ => false
  end.

(** The state after lines 290-310: ticker armed, loop goroutine started,
    [main] about to block on [<-ch]. *)
Definition start (e : Env) : Sched :=
  {| world := {| env := e; log := [] |};
     main_pc := AwaitSignal;
     loop_pc := Selecting;
     quit_closed := false;
     tick_pending := false;
     ticker_running := true;
     proc := Running |}.

(** Lines 311-313 and the return of [main], one statement per step. *)
Definition mainStep (s : Sched) : option Sched :=
  match main_pc s with
  | AwaitSignal => None
  | GotSignal sig =>
    let r := fmt.Println ("Received " ++ Signal_String sig)%string
                         (world s) in
    Some {| world := fst r;
            main_pc := Announced;
            loop_pc := loop_pc s;
            quit_closed := quit_closed s;
            tick_pending := tick_pending s;
            ticker_running := ticker_running s;
            proc := proc s |}
  | Announced =>
    Some {| world := world s;
            main_pc := QuitClosed;
            loop_pc := loop_pc s;
            quit_closed := true;
            tick_pending := tick_pending s;
            ticker_running := ticker_running s;
            proc := proc s |}
  | QuitClosed =>
    Some {| world := world s;
            main_pc := MainReturned;
            loop_pc := loop_pc s;
            quit_closed := quit_closed s;
            tick_pending := tick_pending s;
            ticker_running := ticker_running s;
            proc := Exited |}
  | MainReturned => None
  end.

(** Lines 297-301: the select takes the tick and runs one cycle, here
    to its end in one move; [move] takes it call by call. *)
Definition loopTick (config : Config.t) (s : Sched) : option Sched :=
  match loop_pc s, tick_pending s with
  | Selecting, true =>
    let r := tickCase config (world s) in
    Some {| world := fst r;
            main_pc := main_pc s;
            loop_pc := Selecting;
            quit_closed := quit_closed s;
            tick_pending := false;
            ticker_running := ticker_running s;
            proc := match snd r with
                    | Returns _ => proc s
                    | Panics v => Crashed v
                    end |}
  | _, _ => None
  end.

(** Lines 302-304: the select takes the closed [quit] channel. *)
Definition loopQuit (s : Sched) : option Sched :=
  match loop_pc s, quit_closed s with
  | Selecting, true =>
    let r := perform CTickerStop (world s) in
    Some {| world := fst r;
            main_pc := main_pc s;
            loop_pc := LoopReturned;
            quit_closed := quit_closed s;
            tick_pending := tick_pending s;
            ticker_running := false;
            proc := proc s |}
  | _, _ => None
  end.

(** One move of the whole process; [None] when the label is not
    enabled.  Nothing moves once the process has ended. *)
Definition step (config : Config.t) (l : Label) (s : Sched) : option Sched :=
  if is_running (proc s) then
    match l with
    | TickerFires =>
      if ticker_running s
      then Some {| world := world s;
                   main_pc := main_pc s;
                   loop_pc := loop_pc s;
                   quit_closed := quit_closed s;
                   tick_pending := true;
                   ticker_running := ticker_running s;
                   proc := proc s |}
      else None
    | SignalArrives sig =>
      match main_pc s with
      | AwaitSignal =>
        Some {| world := world s;
                main_pc := GotSignal sig;
                loop_pc := loop_pc s;
                quit_closed := quit_closed s;
                tick_pending := tick_pending s;
                ticker_running := ticker_running s;
                proc := proc s |}
      | _ => None
      end
    | MainSteps => mainStep s
    | LoopTakesTick => loopTick config s
    | LoopTakesQuit => loopQuit s
    end
  else None.

(** A schedule, run from left to right. *)
Fixpoint run (config : Config.t) (ls : list Label) (s : Sched) : option Sched :=
  match ls with
  | [] => Some s
  | l :: ls' =>
    match step config l s with
    | Some s' => run config ls' s'
    | None => None
    end
  end.

(** ** Observations on the log *)

(** What a computation appended to the log. *)
Definition emitted {A} (c : Go A) (w : World) : list Entry :=
  skipn (List.length (log w)) (log (fst (c w))).

(** The gauge writes among some log entries: stat name and value, in
    the order they were attempted. *)
Fixpoint gaugesOf (l : list Entry) : list (string * Z) :=
  match l with
  | [] => []
  | (CGauge _ stat value _, _) :: l' => (stat, value) :: gaugesOf l'
  | _ :: l' => gaugesOf l'
  end.

Definition isGauge (c : Call) : bool :=
  match c with
  | CGauge _ _ _ _ => true
  | _ => false
  end.

(** The calls that make up status retrieval: dial, login, query. *)
Definition isRetrieval (c : Call) : bool :=
  match c with
  | CDialWithInfo _ | CLogin _ | CRun _ => true
  | _ => false
  end.

(** The log entry of a gauge write that went through. *)
Definition sent (client : Client) (g : string * Z) : Entry :=
  (CGauge client (fst g) (snd g) 1.0, None).

(** ** The gauge lists the five push functions walk through *)

(** Send the gauges of a list one after the other, stopping at the
    first error: the shape every push function has. *)
Fixpoint sendAll (client : Client) (gs : list (string * Z)) : Go error :=
  match gs with
  | [] => ret None
  | g :: gs' =>
    guard! statsd.Gauge client (fst g) (snd g) 1.0 ;; sendAll client gs'
  end.

Definition connectionsGauges (connections : Connections.t) : list (string * Z) :=
  [ ("connections.current", int64 (Connections.Current connections));
    ("connections.available", int64 (Connections.Available connections));
    ("connections.created", int64 (Connections.TotalCreated connections)) ].

Definition opcountersGauges (opscounters : Opcounters.t) : list (string * Z) :=
  [ ("ops.inserts", Opcounters.Insert opscounters);
    ("ops.queries", Opcounters.Query opscounters);
    ("ops.updates", Opcounters.Update opscounters);
    ("ops.deletes", Opcounters.Delete opscounters);
    ("ops.getmores", Opcounters.GetMore opscounters);
    ("ops.commands", Opcounters.Command opscounters) ].

Definition memGauges (mem : Mem.t) : list (string * Z) :=
  [ ("mem.resident", Mem.Resident mem);
    ("mem.virtual", Mem.Virtual mem);
    ("mem.mapped", Mem.Mapped mem);
    ("mem.mapped_with_journal", Mem.MappedWithJournal mem) ].

Definition globalLocksGauges (glob : GlobalLock.t) : list (string * Z) :=
  [ ("global_lock.total_time", GlobalLock.TotalTime glob);
    ("global_lock.lock_time", GlobalLock.LockTime glob);
    ("global_lock.active_readers", RWT.Readers (GlobalLock.ActiveClients glob));
    ("global_lock.active_writers", RWT.Writers (GlobalLock.ActiveClients glob));
    ("global_lock.active_total", RWT.Total (GlobalLock.ActiveClients glob));
    ("global_lock.queued_readers", RWT.Readers (GlobalLock.CurrentQueue glob));
    ("global_lock.queued_writers", RWT.Writers (GlobalLock.CurrentQueue glob));
    ("global_lock.queued_total", RWT.Total (GlobalLock.CurrentQueue glob)) ].

Definition extraInfoGauges (info : ExtraInfo.t) : list (string * Z) :=
  [ ("extra.page_faults", ExtraInfo.PageFaults info);
    ("extra.heap_usage", ExtraInfo.HeapUsageInBytes info) ].

(** The gauges of one cycle, in the order [pushStats] calls the groups. *)
Definition statsGauges (status : ServerStatus.t) : list (string * Z) :=
  connectionsGauges (ServerStatus.Connections status)
  ++ opcountersGauges (ServerStatus.Opcounters status)
  ++ memGauges (ServerStatus.Mem status)
  ++ globalLocksGauges (ServerStatus.GlobalLocks status)
  ++ extraInfoGauges (ServerStatus.ExtraInfo status).

(** The two arguments [pushStats] computes for [statsd.NewClient]. *)
Definition namespace (statsd_config : Statsd.t) (status : ServerStatus.t)
  : string :=
  fmt.Sprintf_s_dot_s
    (if 0 <? len (Statsd.Cluster statsd_config)
     then fmt.Sprintf_s_dot_s (Statsd.Env statsd_config)
                              (Statsd.Cluster statsd_config)
     else Statsd.Env statsd_config)
    (ServerStatus.Host status).

Definition hostPort (statsd_config : Statsd.t) : string :=
  fmt.Sprintf_s_colon_d (Statsd.Host statsd_config) (Statsd.Port statsd_config).

Definition clientOf (statsd_config : Statsd.t) (status : ServerStatus.t)
  : Client :=
  {| client_addr := hostPort statsd_config;
     client_prefix := namespace statsd_config status |}.

(** ** The table of section 4.3, as the specification words it *)

Inductive Group := connections | ops | mem | global_lock | extra.

Record Row := {
  group : Group;
  metric : string;
  field : ServerStatus.t -> Z
}.

Definition table_4_3 : list Row :=
  [ {| group := connections; metric := "connections.current";
       field := fun s => Connections.Current (ServerStatus.Connections s) |};
    {| group := connections; metric := "connections.available";
       field := fun s => Connections.Available (ServerStatus.Connections s) |};
    {| group := connections; metric := "connections.created";
       field := fun s => Connections.TotalCreated (ServerStatus.Connections s) |};
    {| group := ops; metric := "ops.inserts";
       field := fun s => Opcounters.Insert (ServerStatus.Opcounters s) |};
    {| group := ops; metric := "ops.queries";
       field := fun s => Opcounters.Query (ServerStatus.Opcounters s) |};
    {| group := ops; metric := "ops.updates";
       field := fun s => Opcounters.Update (ServerStatus.Opcounters s) |};
    {| group := ops; metric := "ops.deletes";
       field := fun s => Opcounters.Delete (ServerStatus.Opcounters s) |};
    {| group := ops; metric := "ops.getmores";
       field := fun s => Opcounters.GetMore (ServerStatus.Opcounters s) |};
    {| group := ops; metric := "ops.commands";
       field := fun s => Opcounters.Command (ServerStatus.Opcounters s) |};
    {| group := mem; metric := "mem.resident";
       field := fun s => Mem.Resident (ServerStatus.Mem s) |};
    {| group := mem; metric := "mem.virtual";
       field := fun s => Mem.Virtual (ServerStatus.Mem s) |};
    {| group := mem; metric := "mem.mapped";
       field := fun s => Mem.Mapped (ServerStatus.Mem s) |};
    {| group := mem; metric := "mem.mapped_with_journal";
       field := fun s => Mem.MappedWithJournal (ServerStatus.Mem s) |};
    {| group := global_lock; metric := "global_lock.total_time";
       field := fun s => GlobalLock.TotalTime (ServerStatus.GlobalLocks s) |};
    {| group := global_lock; metric := "global_lock.lock_time";
       field := fun s => GlobalLock.LockTime (ServerStatus.GlobalLocks s) |};
    {| group := global_lock; metric := "global_lock.active_readers";
       field := fun s =>
         RWT.Readers (GlobalLock.ActiveClients (ServerStatus.GlobalLocks s)) |};
    {| group := global_lock; metric := "global_lock.active_writers";
       field := fun s =>
         RWT.Writers (GlobalLock.ActiveClients (ServerStatus.GlobalLocks s)) |};
    {| group := global_lock; metric := "global_lock.active_total";
       field := fun s =>
         RWT.Total (GlobalLock.ActiveClients (ServerStatus.GlobalLocks s)) |};
    {| group := global_lock; metric := "global_lock.queued_readers";
       field := fun s =>
         RWT.Readers (GlobalLock.CurrentQueue (ServerStatus.GlobalLocks s)) |};
    {| group := global_lock; metric := "global_lock.queued_writers";
       field := fun s =>
         RWT.Writers (GlobalLock.CurrentQueue (ServerStatus.GlobalLocks s)) |};
    {| group := global_lock; metric := "global_lock.queued_total";
       field := fun s =>
         RWT.Total (GlobalLock.CurrentQueue (ServerStatus.GlobalLocks s)) |};
    {| group := extra; metric := "extra.page_faults";
       field := fun s => ExtraInfo.PageFaults (ServerStatus.ExtraInfo s) |};
    {| group := extra; metric := "extra.heap_usage";
       field := fun s => ExtraInfo.HeapUsageInBytes (ServerStatus.ExtraInfo s) |} ].

(** What the table asks to be sent for a snapshot. *)
Definition tableGauges (status : ServerStatus.t) : list (string * Z) :=
  map (fun row => (metric row, field row status)) table_4_3.

(** The group a metric name belongs to: the part before the first dot. *)
Definition groupOf (stat : string) : option Group :=
  if String.prefix "connections." stat then Some connections
  else if String.prefix "ops." stat then Some ops
  else if String.prefix "mem." stat then Some mem
  else if String.prefix "global_lock." stat then Some global_lock
  else if String.prefix "extra." stat then Some extra
  else None.

(** A valid snapshot: every integer of the document fits [int64], as
    the Go field types say. *)
Definition rwtInts (r : RWT.t) : list Z :=
  [RWT.Readers r; RWT.Writers r; RWT.Total r].

Definition opcountersInts (o : Opcounters.t) : list Z :=
  [Opcounters.Insert o; Opcounters.Query o; Opcounters.Update o;
   Opcounters.Delete o; Opcounters.GetMore o; Opcounters.Command o].

Definition statusInts (s : ServerStatus.t) : list Z :=
  [ServerStatus.Pid s; ServerStatus.Uptime s; ServerStatus.UptimeInMillis s;
   ServerStatus.UptimeEstimate s; ServerStatus.LocalTime s]
  ++ [Connections.Current (ServerStatus.Connections s);
      Connections.Available (ServerStatus.Connections s);
      Connections.TotalCreated (ServerStatus.Connections s)]
  ++ [ExtraInfo.PageFaults (ServerStatus.ExtraInfo s);
      ExtraInfo.HeapUsageInBytes (ServerStatus.ExtraInfo s)]
  ++ [Mem.Resident (ServerStatus.Mem s); Mem.Virtual (ServerStatus.Mem s);
      Mem.Mapped (ServerStatus.Mem s);
      Mem.MappedWithJournal (ServerStatus.Mem s)]
  ++ [GlobalLock.TotalTime (ServerStatus.GlobalLocks s);
      GlobalLock.LockTime (ServerStatus.GlobalLocks s)]
  ++ rwtInts (GlobalLock.CurrentQueue (ServerStatus.GlobalLocks s))
  ++ rwtInts (GlobalLock.ActiveClients (ServerStatus.GlobalLocks s))
  ++ opcountersInts (ServerStatus.Opcounters s)
  ++ opcountersInts (ServerStatus.OpcountersReplicaSet s).

Definition validStatus (s : ServerStatus.t) : Prop :=
  Forall Int64.in_range (statusInts s).

(** ** Shapes of a cycle's log *)

(** The world with more entries appended to its log. *)
Definition extend (w : World) (l : list Entry) : World :=
  {| env := env w; log := log w ++ l |}.

(** What [pushStats] can append, and the error it returns with it:
    the sink was not constructed; or every gauge went through; or a
    gauge failed and the rest was skipped. *)
Inductive Published (statsd_config : Statsd.t) (status : ServerStatus.t)
  : list Entry -> error -> Prop :=
| NoClient (e : string) :
    Published statsd_config status
      [(CNewClient (hostPort statsd_config) (namespace statsd_config status),
        Some e)]
      (Some e)
| Complete (a : error) :
    Published statsd_config status
      ((CNewClient (hostPort statsd_config) (namespace statsd_config status),
        None)
       :: map (sent (clientOf statsd_config status)) (statsGauges status)
       ++ [(CClientClose (clientOf statsd_config status), a)])
      None
| Aborted (pre post : list (string * Z)) (g : string * Z) (e : string)
          (a : error) :
    statsGauges status = pre ++ g :: post ->
    Published statsd_config status
      ((CNewClient (hostPort statsd_config) (namespace statsd_config status),
        None)
       :: map (sent (clientOf statsd_config status)) pre
       ++ [(CGauge (clientOf statsd_config status) (fst g) (snd g) 1.0, Some e);
           (CClientClose (clientOf statsd_config status), a)])
      (Some e).

(** The calls of [serverStatus], by configuration. *)
Definition dialCall (mongo_config : Mongo.t) : Call :=
  CDialWithInfo {| Addrs := Mongo.Addresses mongo_config;
                   Direct := false;
                   Timeout := 30 |}.

Definition loginCall (mongo_config : Mongo.t) : Call :=
  CLogin {| Username := Mongo.User mongo_config;
            Password := Mongo.Pass mongo_config |}.

(** The login entry of a retrieval that got past authentication:
    present exactly when a user name is configured. *)
Definition loggedIn (mongo_config : Mongo.t) : list Entry :=
  if 0 <? len (Mongo.User mongo_config)
  then [(loginCall mongo_config, None)]
  else [].

(** What [serverStatus] can append, and the value it panics with
    ([None] when it returns). *)
Inductive Retrieved (mongo_config : Mongo.t) : list Entry -> error -> Prop :=
| DialFailed (e : string) :
    Retrieved mongo_config [(dialCall mongo_config, Some e)] (Some e)
| LoginFailed (e : string) (a : error) :
    0 < len (Mongo.User mongo_config) ->
    Retrieved mongo_config
      [(dialCall mongo_config, None);
       (loginCall mongo_config, Some e);
       (CSessionClose, a)]
      (Some e)
| QueryFailed (e : string) (m a : error) :
    Retrieved mongo_config
      ((dialCall mongo_config, None)
       :: loggedIn mongo_config
       ++ [(CSetMode Monotonic true, m);
           (CRun "serverStatus", Some e);
           (CSessionClose, a)])
      (Some e)
| QueryAnswered (m a : error) :
    Retrieved mongo_config
      ((dialCall mongo_config, None)
       :: loggedIn mongo_config
       ++ [(CSetMode Monotonic true, m);
           (CRun "serverStatus", None);
           (CSessionClose, a)])
      None.

Definition panicOf {A} (r : Outcome A) : error :=
  match r with
  | Returns _ => None
  | Panics v => Some v
  end.

(** ** Sample inputs *)

Definition db1 : ServerStatus.t :=
  ServerStatus.Build "db1" "2.4.9" "mongod" 4242 86400 86400123 86000 1400000000
    (Connections.Build 17 (-5) 1200)
    (ExtraInfo.Build 33 4096000)
    (Mem.Build 512 2048 1024 2060)
    (GlobalLock.Build 9000000 120000 (RWT.Build 1 2 3) (RWT.Build 4 5 9))
    (Opcounters.Build 10 20 30 40 50 60)
    (Opcounters.Build 1 2 3 4 5 6).

Definition prod_flat : Statsd.t := Statsd.Build "127.0.0.1" 8125 "prod" EmptyString.

Definition prod_shardA : Statsd.t :=
  Statsd.Build "127.0.0.1" 8125 "prod" "shardA".

Definition mongo_open : Mongo.t := Mongo.Build ["db2:27017"] EmptyString EmptyString.

Definition mongo_auth : Mongo.t :=
  Mongo.Build ["db2:27017"] "monitor" "s3cret".

Definition sample_config : Config.t :=
  Config.Build 10 mongo_open prod_shardA.

Definition auth_config : Config.t :=
  Config.Build 10 mongo_auth prod_flat.

(** An environment in which every call succeeds and the server answers
    with [db1]. *)
Definition calm : Env :=
  {| answer := fun _ _ => None; document := fun _ => db1 |}.

(** The gauge call attempted after [n] earlier gauge calls fails. *)
Definition gauge_fails_after (n : nat) (msg : string) : Env :=
  {| answer := fun h c =>
       if isGauge c && Nat.eqb (List.length (gaugesOf h)) n
       then Some msg else None;
     document := fun _ => db1 |}.

(** The statsd client cannot be constructed. *)
Definition sink_down (msg : string) : Env :=
  {| answer := fun _ c =>
       match c with
       | CNewClient _ _ => Some msg
       | _ => None
       end;
     document := fun _ => db1 |}.

(** No server of the address list can be reached. *)
Definition mongo_down (msg : string) : Env :=
  {| answer := fun _ c =>
       match c with
       | CDialWithInfo _ => Some msg
       | _ => None
       end;
     document := fun _ => db1 |}.

Definition blank (e : Env) : World := {| env := e; log := [] |}.

(** A gauge write the sink refused. *)
Definition failedGauge (en : Entry) : bool :=
  isGauge (fst en)
  && match snd en with
     | Some _ => true
     | None => false
     end.

(** What the sink answered to the requests of a publish: the answers to
    [NewClient] and to the gauges.  (The error of the deferred [Close]
    is dropped by the code.) *)
Fixpoint sinkAnswers (l : list Entry) : list error :=
  match l with
  | [] => []
  | (CNewClient _ _, a) :: l' => a :: sinkAnswers l'
  | (CGauge _ _ _ _, a) :: l' => a :: sinkAnswers l'
  | _ :: l' => sinkAnswers l'
  end.

(** A cycle in which the third gauge is refused. *)
Definition third_refused : Env :=
  gauge_fails_after 2 "write udp 127.0.0.1:8125: connection refused".

Definition third_refused_retrieved : World :=
  fst (serverStatus (Config.Mongo sample_config) (blank third_refused)).

(** The start state with a tick waiting in [ticker.C]. *)
Definition ticked (e : Env) : Sched :=
  {| world := {| env := e; log := [] |};
     main_pc := AwaitSignal;
     loop_pc := Selecting;
     quit_closed := false;
     tick_pending := true;
     ticker_running := true;
     proc := Running |}.

(** The line [main] prints for a signal (line 312). *)
Definition receivedLine (sig : Signal) : string :=
  ("Received " ++ Signal_String sig)%string.

(** A signal arrived in the schedule and its line is in the log. *)
Definition announced (ls : list Label) (s : Sched) : Prop :=
  exists sig,
    In (SignalArrives sig) ls
    /\ exists a, In (CPrintln (receivedLine sig), a) (log (world s)).

(** What holds in every state a schedule reaches from [start]. *)
Definition reachable_inv (ls : list Label) (s : Sched) : Prop :=
  (loop_pc s = LoopReturned ->
   ticker_running s = false /\ quit_closed s = true
   /\ exists a, In (CTickerStop, a) (log (world s)))
  /\ (quit_closed s = true ->
      main_pc s = QuitClosed \/ main_pc s = MainReturned)
  /\ (proc s = Exited -> main_pc s = MainReturned)
  /\ (main_pc s = Announced \/ main_pc s = QuitClosed
      \/ main_pc s = MainReturned -> announced ls s)
  /\ (forall sig, main_pc s = GotSignal sig -> In (SignalArrives sig) ls).

(** ** Further observations on the log *)

(** The first error in a list of answers; [None] when there is none. *)
Fixpoint firstError (l : list error) : error :=
  match l with
  | [] => None
  | Some e :: _ => Some e
  | None :: l' => firstError l'
  end.

Definition isDial (c : Call) : bool :=
  match c with
  | CDialWithInfo _ => true
  | _ => false
  end.

Definition isLogin (c : Call) : bool :=
  match c with
  | CLogin _ => true
  | _ => false
  end.

Definition isRun (c : Call) : bool :=
  match c with
  | CRun _ => true
  | _ => false
  end.

Definition isSessionClose (c : Call) : bool :=
  match c with
  | CSessionClose => true
  | _ => false
  end.

Definition isClientClose (c : Call) : bool :=
  match c with
  | CClientClose _ => true
  | _ => false
  end.

(** Calls on the mgo session, and calls on the statsd side. *)
Definition isMgo (c : Call) : bool :=
  match c with
  | CDialWithInfo _ | CLogin _ | CSetMode _ _ | CRun _ | CSessionClose => true
  | _ => false
  end.

Definition isSink (c : Call) : bool :=
  match c with
  | CNewClient _ _ | CGauge _ _ _ _ | CClientClose _ => true
  | _ => false
  end.

(** How many of the entries are calls of a kind. *)
Definition countCalls (p : Call -> bool) (l : list Entry) : nat :=
  List.length (filter (fun en => p (fst en)) l).

(** [db1] as a secondary would report it: other identity fields and
    other replica-set counters, the same host and published groups. *)
Definition db1_replica : ServerStatus.t :=
  ServerStatus.Build "db1" "2.6.1" "mongos" 977 12 12345 11 1400000777
    (Connections.Build 17 (-5) 1200)
    (ExtraInfo.Build 33 4096000)
    (Mem.Build 512 2048 1024 2060)
    (GlobalLock.Build 9000000 120000 (RWT.Build 1 2 3) (RWT.Build 4 5 9))
    (Opcounters.Build 10 20 30 40 50 60)
    (Opcounters.Build 700 800 900 1000 1100 1200).

(** ** Counting over a schedule *)

Definition isTickerStop (c : Call) : bool :=
  match c with
  | CTickerStop => true
  | _ => false
  end.

Definition isSignalArrives (l : Label) : bool :=
  match l with
  | SignalArrives _ => true
  | _ => false
  end.

Definition isTickerFires (l : Label) : bool :=
  match l with
  | TickerFires => true
  | _ => false
  end.

Definition isLoopTakesTick (l : Label) : bool :=
  match l with
  | LoopTakesTick => true
  | _ => false
  end.

(** How many moves of a schedule are of a kind. *)
Definition countLabels (p : Label -> bool) (ls : list Label) : nat :=
  List.length (filter p ls).

(** The books of a run: every cycle consumed a tick of its own, every
    cycle dialled once, the ticker was stopped once if the loop has
    returned and not at all otherwise, and [main] has received one
    signal unless it still waits. *)
Definition accounting_inv (ls : list Label) (s : Sched) : Prop :=
  (countLabels isLoopTakesTick ls + (if tick_pending s then 1 else 0)
   <= countLabels isTickerFires ls)%nat
  /\ countCalls isDial (log (world s)) = countLabels isLoopTakesTick ls
  /\ countCalls isTickerStop (log (world s))
     = match loop_pc s with
       | Selecting => 0%nat
       | LoopReturned => 1%nat
       end
  /\ countLabels isSignalArrives ls
     = match main_pc s with
       | AwaitSignal => 0%nat
       | _ => 1%nat
       end.

(** * The cycle, call by call *)

(** [loopTick] runs a taken cycle to its end in one move.  In the
    program the cycle runs in the loop goroutine while [main] can
    receive the signal, print, close [quit] and return.  To follow a
    cycle one external call at a time, lines 71-301 are written once
    more as the tree of the calls they make; [interp] runs such a tree
    to its end, and [interp_tickCase] shows that it then is [tickCase]. *)

Module Steps.

(** What a function still has to do: it has returned, it has panicked,
    or it makes a call and goes on according to the answer. *)
Inductive Prog (A : Type) : Type :=
| Done (a : A)
| Raise (v : string)
| Do (c : Call) (k : error -> Prog A)
| Query (cmd : string) (k : ServerStatus.t * error -> Prog A).

Arguments Done {A} a.
Arguments Raise {A} v.
Arguments Do {A} c k.
Arguments Query {A} cmd k.

Definition ret {A} (a : A) : Prog A := Done a.

Definition panic {A} (v : string) : Prog A := Raise v.

Definition perform (c : Call) : Prog error := Do c (fun e => Done e).

Fixpoint bind {A B} (p : Prog A) (k : A -> Prog B) : Prog B :=
  match p with
  | Done a => k a
  | Raise v => Raise v
  | Do c k' => Do c (fun e => bind (k' e) k)
  | Query cmd k' => Query cmd (fun r => bind (k' r) k)
  end.

(** The deferred call [d] runs to its end, and then the function ends
    the way [r] says; what [d] returns is dropped. *)
Fixpoint andThen {A B} (d : Prog B) (r : Prog A) : Prog A :=
  match d with
  | Done _ => r
  | Raise _ => r
  | Do c k => Do c (fun e => andThen (k e) r)
  | Query cmd k => Query cmd (fun x => andThen (k x) r)
  end.

(** [defer d] placed before [body]. *)
Fixpoint defer {A B} (d : Prog B) (body : Prog A) : Prog A :=
  match body with
  | Done a => andThen d (Done a)
  | Raise v => andThen d (Raise v)
  | Do c k => Do c (fun e => defer d (k e))
  | Query cmd k => Query cmd (fun x => defer d (k x))
  end.

Declare Scope steps_scope.
Notation "x <- c ;; k" := (bind c (fun x => k))
  (at level 61, c at next level, right associativity) : steps_scope.
Notation "c ;; k" := (bind c (fun _ => k))
  (at level 61, right associativity) : steps_scope.

Definition orReturn (c : Prog error) (k : Prog error) : Prog error :=
  bind c (fun err => match err with
                     | Some _ => ret err
                     | None => k
                     end).
Notation "'guard!' c ;; k" := (orReturn c k)
  (at level 61, c at next level, right associativity) : steps_scope.

Local Open Scope steps_scope.

Module mgo.
Definition DialWithInfo (info : DialInfo) : Prog error :=
  perform (CDialWithInfo info).
Definition Login (cred : Credential) : Prog error := perform (CLogin cred).
Definition SetMode (mode : Mode) (refresh : bool) : Prog error :=
  perform (CSetMode mode refresh).
Definition Run (cmd : string) : Prog (ServerStatus.t * error) :=
  Query cmd (fun r => Done r).
Definition Close : Prog error := perform CSessionClose.
End mgo.

Module statsd.
Definition NewClient (addr prefix : string) : Prog (Client * error) :=
  err <- perform (CNewClient addr prefix) ;;
  ret ({| client_addr := addr; client_prefix := prefix |}, err).
Definition Gauge (client : Client) (stat : string) (value : Z) (rate : Q)
  : Prog error :=
  perform (CGauge client stat value rate).
Definition Close (client : Client) : Prog error :=
  perform (CClientClose client).
End statsd.

Module fmt.
Definition Println (line : string) : Prog error := perform (CPrintln line).
End fmt.

(** Lines 71-100. *)
Definition serverStatus (mongo_config : Mongo.t) : Prog ServerStatus.t :=
  let info := {| Addrs := Mongo.Addresses mongo_config;
                 Direct := false;
                 Timeout := 30 |} in
  err <- mgo.DialWithInfo info ;;
  match err with
  | Some e => panic e
  | None =>
    defer mgo.Close
      ((if 0 <? len (Mongo.User mongo_config)
        then
          let cred := {| Username := Mongo.User mongo_config;
                         Password := Mongo.Pass mongo_config |} in
          err <- mgo.Login cred ;;
          match err with
          | Some e => panic e
          | None => ret tt
          end
        else ret tt) ;;
       mgo.SetMode Monotonic true ;;
       r <- mgo.Run "serverStatus" ;;
       match snd r with
       | Some e => panic e
       | None => ret (fst r)
       end)
  end.

(** Lines 102-121. *)
Definition pushConnections (client : Client) (connections : Connections.t)
  : Prog error :=
  guard! statsd.Gauge client "connections.current"
           (int64 (Connections.Current connections)) 1.0 ;;
  guard! statsd.Gauge client "connections.available"
           (int64 (Connections.Available connections)) 1.0 ;;
  guard! statsd.Gauge client "connections.created"
           (int64 (Connections.TotalCreated connections)) 1.0 ;;
  ret None.

(** Lines 123-158. *)
Definition pushOpcounters (client : Client) (opscounters : Opcounters.t)
  : Prog error :=
  guard! statsd.Gauge client "ops.inserts" (Opcounters.Insert opscounters) 1.0 ;;
  guard! statsd.Gauge client "ops.queries" (Opcounters.Query opscounters) 1.0 ;;
  guard! statsd.Gauge client "ops.updates" (Opcounters.Update opscounters) 1.0 ;;
  guard! statsd.Gauge client "ops.deletes" (Opcounters.Delete opscounters) 1.0 ;;
  guard! statsd.Gauge client "ops.getmores" (Opcounters.GetMore opscounters) 1.0 ;;
  guard! statsd.Gauge client "ops.commands" (Opcounters.Command opscounters) 1.0 ;;
  ret None.

(** Lines 160-184. *)
Definition pushMem (client : Client) (mem : Mem.t) : Prog error :=
  guard! statsd.Gauge client "mem.resident" (Mem.Resident mem) 1.0 ;;
  guard! statsd.Gauge client "mem.virtual" (Mem.Virtual mem) 1.0 ;;
  guard! statsd.Gauge client "mem.mapped" (Mem.Mapped mem) 1.0 ;;
  guard! statsd.Gauge client "mem.mapped_with_journal"
           (Mem.MappedWithJournal mem) 1.0 ;;
  ret None.

(** Lines 186-230. *)
Definition pushGlobalLocks (client : Client) (glob : GlobalLock.t)
  : Prog error :=
  guard! statsd.Gauge client "global_lock.total_time"
           (GlobalLock.TotalTime glob) 1.0 ;;
  guard! statsd.Gauge client "global_lock.lock_time"
           (GlobalLock.LockTime glob) 1.0 ;;
  guard! statsd.Gauge client "global_lock.active_readers"
           (RWT.Readers (GlobalLock.ActiveClients glob)) 1.0 ;;
  guard! statsd.Gauge client "global_lock.active_writers"
           (RWT.Writers (GlobalLock.ActiveClients glob)) 1.0 ;;
  guard! statsd.Gauge client "global_lock.active_total"
           (RWT.Total (GlobalLock.ActiveClients glob)) 1.0 ;;
  guard! statsd.Gauge client "global_lock.queued_readers"
           (RWT.Readers (GlobalLock.CurrentQueue glob)) 1.0 ;;
  guard! statsd.Gauge client "global_lock.queued_writers"
           (RWT.Writers (GlobalLock.CurrentQueue glob)) 1.0 ;;
  guard! statsd.Gauge client "global_lock.queued_total"
           (RWT.Total (GlobalLock.CurrentQueue glob)) 1.0 ;;
  ret None.

(** Lines 232-246. *)
Definition pushExtraInfo (client : Client) (info : ExtraInfo.t) : Prog error :=
  guard! statsd.Gauge client "extra.page_faults"
           (ExtraInfo.PageFaults info) 1.0 ;;
  guard! statsd.Gauge client "extra.heap_usage"
           (ExtraInfo.HeapUsageInBytes info) 1.0 ;;
  ret None.

(** Lines 248-287. *)
Definition pushStats (statsd_config : Statsd.t) (status : ServerStatus.t)
  : Prog error :=
  let prefix := Statsd.Env statsd_config in
  let prefix :=
    if 0 <? len (Statsd.Cluster statsd_config)
    then fmt.Sprintf_s_dot_s prefix (Statsd.Cluster statsd_config)
    else prefix in
  let prefix := fmt.Sprintf_s_dot_s prefix (ServerStatus.Host status) in
  let host_port :=
    fmt.Sprintf_s_colon_d (Statsd.Host statsd_config)
                          (Statsd.Port statsd_config) in
  r <- statsd.NewClient host_port prefix ;;
  let client := fst r in
  match snd r with
  | Some e => ret (Some e)
  | None =>
    defer (statsd.Close client)
      (guard! pushConnections client (ServerStatus.Connections status) ;;
       guard! pushOpcounters client (ServerStatus.Opcounters status) ;;
       guard! pushMem client (ServerStatus.Mem status) ;;
       guard! pushGlobalLocks client (ServerStatus.GlobalLocks status) ;;
       guard! pushExtraInfo client (ServerStatus.ExtraInfo status) ;;
       ret None)
  end.

(** Lines 298-301. *)
Definition tickCase (config : Config.t) : Prog unit :=
  status <- serverStatus (Config.Mongo config) ;;
  err <- pushStats (Config.Statsd config) status ;;
  match err with
  | Some e => fmt.Println e ;; ret tt
  | None => ret tt
  end.

End Steps.

(** A tree run to its end against the world, with nothing in between:
    every call is answered from the log as it then is and appended
    to it; [Query] is [session.Run], which also hands the decoded
    document back. *)
Fixpoint interp {A} (p : Steps.Prog A) (w : World) : World * Outcome A :=
  match p with
  | Steps.Done a => (w, Returns a)
  | Steps.Raise v => (w, Panics v)
  | Steps.Do c k =>
    let e := answer (env w) (log w) c in
    interp (k e) (extend w [(c, e)])
  | Steps.Query cmd k =>
    let e := answer (env w) (log w) (CRun cmd) in
    interp (k (document (env w) (log w), e)) (extend w [(CRun cmd, e)])
  end.

(** [p] run to its end is the computation [c]. *)
Definition agrees {A} (p : Steps.Prog A) (c : Go A) : Prop :=
  forall w, interp p w = c w.

(** Every call a tree can make is of a kind. *)
Fixpoint AllCalls {A} (q : Call -> bool) (p : Steps.Prog A) : Prop :=
  match p with
  | Steps.Done _ => True
  | Steps.Raise _ => True
  | Steps.Do c k => q c = true /\ forall e, AllCalls q (k e)
  | Steps.Query cmd k => q (CRun cmd) = true /\ forall r, AllCalls q (k r)
  end.

(** ** [main] with the cycle interleaved *)

(** The state of the process: the state of [step], and what is left of
    the cycle the loop goroutine is in, if it is in one.  [loop_pc]
    [Selecting] with a cycle underway means the loop is inside its tick
    branch (lines 298-301), not at the [select]. *)
Definition Machine : Type := Sched * option (Steps.Prog unit).

(** The moves: those of [step], where [LoopTakesTick] now only takes the
    tick and enters the branch; and the next step of the cycle
    underway. *)
Inductive Move :=
| Outside (l : Label)
| CycleSteps.

Definition with_world (s : Sched) (w : World) : Sched :=
  {| world := w;
     main_pc := main_pc s;
     loop_pc := loop_pc s;
     quit_closed := quit_closed s;
     tick_pending := tick_pending s;
     ticker_running := ticker_running s;
     proc := proc s |}.

Definition with_proc (s : Sched) (p : Proc) : Sched :=
  {| world := world s;
     main_pc := main_pc s;
     loop_pc := loop_pc s;
     quit_closed := quit_closed s;
     tick_pending := tick_pending s;
     ticker_running := ticker_running s;
     proc := p |}.

Definition tick_taken (s : Sched) : Sched :=
  {| world := world s;
     main_pc := main_pc s;
     loop_pc := loop_pc s;
     quit_closed := quit_closed s;
     tick_pending := false;
     ticker_running := ticker_running s;
     proc := proc s |}.

(** One step of the cycle underway: its next call, answered and logged;
    or its end, which brings the loop back to the [select]; or its
    panic, which nothing recovers and which ends the process. *)
Definition cycleStep (s : Sched) (rest : Steps.Prog unit) : Machine :=
  match rest with
  | Steps.Do c k =>
    let e := answer (env (world s)) (log (world s)) c in
    (with_world s (extend (world s) [(c, e)]), Some (k e))
  | Steps.Query cmd k =>
    let e := answer (env (world s)) (log (world s)) (CRun cmd) in
    (with_world s (extend (world s) [(CRun cmd, e)]),
     Some (k (document (env (world s)) (log (world s)), e)))
  | Steps.Done _ => (s, None)
  | Steps.Raise v => (with_proc s (Crashed v), Some rest)
  end.

(** One move of the process.  The loop takes a tick or the closed
    [quit] only at its [select], that is with no cycle underway; the
    ticker, the signal and [main] move as in [step], whether a cycle is
    underway or not. *)
Definition move (config : Config.t) (m : Move) (st : Machine)
  : option Machine :=
  if is_running (proc (fst st)) then
    match m, snd st with
    | CycleSteps, Some rest => Some (cycleStep (fst st) rest)
    | CycleSteps, None => None
    | Outside LoopTakesTick, None =>
      match loop_pc (fst st), tick_pending (fst st) with
      | Selecting, true =>
        Some (tick_taken (fst st), Some (Steps.tickCase config))
      | _, _ => None
      end
    | Outside LoopTakesTick, Some _ => None
    | Outside LoopTakesQuit, Some _ => None
    | Outside l, cycle =>
      match step config l (fst st) with
      | Some s' => Some (s', cycle)
      | None => None
      end
    end
  else None.

Fixpoint moves (config : Config.t) (ms : list Move) (st : Machine)
  : option Machine :=
  match ms with
  | [] => Some st
  | m :: ms' =>
    match move config m st with
    | Some st' => moves config ms' st'
    | None => None
    end
  end.

(** The state after lines 290-310, the loop at its [select]. *)
Definition boot (e : Env) : Machine := (start e, None).

Definition isOutside (q : Label -> bool) (m : Move) : bool :=
  match m with
  | Outside l => q l
  | CycleSteps => false
  end.

Definition countMoves (p : Move -> bool) (ms : list Move) : nat :=
  List.length (filter p ms).

(** The cycles taken and the ticks fired in a schedule. *)
Definition cyclesTaken (ms : list Move) : nat :=
  countMoves (isOutside isLoopTakesTick) ms.

Definition ticksFired (ms : list Move) : nat :=
  countMoves (isOutside isTickerFires) ms.

(** A call a cycle makes after its dial. *)
Definition afterDial (c : Call) : bool :=
  negb (isDial c) && negb (isTickerStop c).

(** What holds in every state the interleaved process reaches from
    [boot], in the middle of a cycle too. *)
Definition interleaved_inv (config : Config.t) (ms : list Move)
           (st : Machine) : Prop :=
  (loop_pc (fst st) = LoopReturned ->
   ticker_running (fst st) = false /\ quit_closed (fst st) = true
   /\ snd st = None)
  /\ (quit_closed (fst st) = true ->
      main_pc (fst st) = QuitClosed \/ main_pc (fst st) = MainReturned)
  /\ (proc (fst st) = Exited -> main_pc (fst st) = MainReturned)
  /\ (ticker_running (fst st) = false -> loop_pc (fst st) = LoopReturned)
  /\ countCalls isTickerStop (log (world (fst st)))
     = match loop_pc (fst st) with
       | Selecting => 0%nat
       | LoopReturned => 1%nat
       end
  /\ (cyclesTaken ms + (if tick_pending (fst st) then 1 else 0)
      <= ticksFired ms)%nat
  /\ ((countCalls isDial (log (world (fst st))) = cyclesTaken ms
       /\ match snd st with
          | Some rest => AllCalls afterDial rest
          | None => True
          end)
      \/ (S (countCalls isDial (log (world (fst st)))) = cyclesTaken ms
          /\ snd st = Some (Steps.tickCase config))).

(** A schedule of the ticker and the loop alone. *)
Definition loopOnly (m : Move) : Prop :=
  m = CycleSteps \/ m = Outside TickerFires \/ m = Outside LoopTakesTick.

(** A schedule that stops in the middle of a cycle: the tick was taken,
    the dial and the mode switch are done, the query is next. *)
Definition midCycle : list Move :=
  [Outside TickerFires; Outside LoopTakesTick; CycleSteps; CycleSteps].

(** * Lemmas *)

(** ** Arithmetic and lists *)

Lemma int64_id (z : Z) : Int64.in_range z -> int64 z = z.
Proof.
  unfold int64, Int64.wrap, Int64.in_range, Int64.min_int, Int64.max_int,
    Int64.modulus.
  intros H. rewrite Z.mod_small; lia.
Qed.

Lemma in_rangeb_spec (z : Z) : Int64.in_rangeb z = true <-> Int64.in_range z.
Proof.
  unfold Int64.in_rangeb, Int64.in_range.
  rewrite andb_true_iff, !Z.leb_le. reflexivity.
Qed.

Lemma len_pos (s : string) : (0 <? len s) = true <-> s <> EmptyString.
Proof.
  destruct s; unfold len; simpl; split; intros H; try congruence.
  - now elim H.
  - apply Z.ltb_lt. lia.
Qed.

Lemma len_zero (s : string) : (0 <? len s) = false <-> s = EmptyString.
Proof.
  destruct s; unfold len; split; intros H; try reflexivity; discriminate.
Qed.

Lemma skipn_length_app {A} (l l' : list A) : skipn (List.length l) (l ++ l') = l'.
Proof. induction l; simpl; auto. Qed.

Lemma extend_extend (w : World) (l l' : list Entry) :
  extend (extend w l) l' = extend w (l ++ l').
Proof. unfold extend; simpl. now rewrite <- app_assoc. Qed.

Lemma emitted_extend {A} (c : Go A) (w : World) (l : list Entry) (r : Outcome A) :
  c w = (extend w l, r) -> emitted c w = l.
Proof.
  intros H. unfold emitted. rewrite H. simpl. apply skipn_length_app.
Qed.

Lemma gaugesOf_app (l l' : list Entry) :
  gaugesOf (l ++ l') = gaugesOf l ++ gaugesOf l'.
Proof.
  induction l as [|[c a] l IH]; simpl; auto.
  destruct c; simpl; auto. now rewrite IH.
Qed.

Lemma gaugesOf_sent (client : Client) (gs : list (string * Z)) :
  gaugesOf (map (sent client) gs) = gs.
Proof.
  induction gs as [|[n v] gs IH]; simpl; auto. now rewrite IH.
Qed.

(** ** The push functions walk their gauge lists *)

Lemma perform_eq (c : Call) (w : World) :
  perform c w = (extend w [(c, answer (env w) (log w) c)],
                 Returns (answer (env w) (log w) c)).
Proof. reflexivity. Qed.

Lemma pushConnections_sendAll client connections :
  pushConnections client connections
  = sendAll client (connectionsGauges connections).
Proof. reflexivity. Qed.

Lemma pushOpcounters_sendAll client opscounters :
  pushOpcounters client opscounters
  = sendAll client (opcountersGauges opscounters).
Proof. reflexivity. Qed.

Lemma pushMem_sendAll client mem :
  pushMem client mem = sendAll client (memGauges mem).
Proof. reflexivity. Qed.

Lemma pushGlobalLocks_sendAll client glob :
  pushGlobalLocks client glob = sendAll client (globalLocksGauges glob).
Proof. reflexivity. Qed.

Lemma pushExtraInfo_sendAll client info :
  pushExtraInfo client info = sendAll client (extraInfoGauges info).
Proof. reflexivity. Qed.

(** Sending one list and, if that went well, another, is sending their
    concatenation. *)
Lemma sendAll_app client (gs gs' : list (string * Z)) (k : Go error) (w : World) :
  (guard! sendAll client gs ;; guard! sendAll client gs' ;; k) w
  = (guard! sendAll client (gs ++ gs') ;; k) w.
Proof.
  revert w. induction gs as [|g gs IH]; intros w.
  - reflexivity.
  - simpl. unfold orReturn, bind in *. unfold statsd.Gauge.
    rewrite perform_eq.
    destruct (answer (env w) (log w) (CGauge client (fst g) (snd g) 1.0)).
    + reflexivity.
    + apply IH.
Qed.

Lemma sendAll_last client (gs : list (string * Z)) (w : World) :
  (guard! sendAll client gs ;; ret None) w = sendAll client gs w.
Proof.
  unfold orReturn, bind, ret.
  destruct (sendAll client gs w) as [w1 [[e|]|v]]; reflexivity.
Qed.

(** The five groups of [pushStats] together send [statsGauges]. *)
Lemma groups_sendAll client (status : ServerStatus.t) (w : World) :
  (guard! pushConnections client (ServerStatus.Connections status) ;;
   guard! pushOpcounters client (ServerStatus.Opcounters status) ;;
   guard! pushMem client (ServerStatus.Mem status) ;;
   guard! pushGlobalLocks client (ServerStatus.GlobalLocks status) ;;
   guard! pushExtraInfo client (ServerStatus.ExtraInfo status) ;;
   ret None) w
  = sendAll client (statsGauges status) w.
Proof.
  rewrite pushConnections_sendAll, pushOpcounters_sendAll, pushMem_sendAll,
    pushGlobalLocks_sendAll, pushExtraInfo_sendAll.
  unfold statsGauges.
  rewrite !sendAll_app, sendAll_last, <- !app_assoc. reflexivity.
Qed.

(** [sendAll] either sends the whole list, or stops at the first gauge
    the sink refuses. *)
Lemma sendAll_runs client (gs : list (string * Z)) (w : World) :
  sendAll client gs w = (extend w (map (sent client) gs), Returns None)
  \/ exists pre g post e,
       gs = pre ++ g :: post
       /\ sendAll client gs w
          = (extend w (map (sent client) pre
                       ++ [(CGauge client (fst g) (snd g) 1.0, Some e)]),
             Returns (Some e)).
Proof.
  revert w. induction gs as [|g gs IH]; intros w.
  - left. unfold extend. simpl. rewrite app_nil_r. now destruct w.
  - simpl. unfold orReturn, bind, statsd.Gauge. rewrite perform_eq.
    destruct (answer (env w) (log w) (CGauge client (fst g) (snd g) 1.0))
      as [e|] eqn:Ha.
    + right. exists [], g, gs, e. split; reflexivity.
    + cbv iota beta.
      match goal with
      | |- context [sendAll client gs ?w'] =>
        destruct (IH w') as [H | (pre & g' & post & e & Hgs & H)]
      end.
      * left. rewrite H, extend_extend. reflexivity.
      * right. exists (g :: pre), g', post, e. split.
        -- now rewrite Hgs.
        -- rewrite H, extend_extend. reflexivity.
Qed.

(** ** The shape of one publish *)

Lemma pushStats_published (statsd_config : Statsd.t) (status : ServerStatus.t)
      (w : World) :
  exists l err,
    pushStats statsd_config status w = (extend w l, Returns err)
    /\ Published statsd_config status l err
    /\ exists rest,
         l = (CNewClient (hostPort statsd_config)
                         (namespace statsd_config status),
              answer (env w) (log w)
                (CNewClient (hostPort statsd_config)
                            (namespace statsd_config status)))
             :: rest.
Proof.
  unfold pushStats, statsd.NewClient.
  fold (hostPort statsd_config) (namespace statsd_config status).
  unfold bind at 1. unfold bind at 1. rewrite perform_eq.
  unfold ret at 1. cbn [fst snd].
  fold (clientOf statsd_config status).
  destruct (answer (env w) (log w)
              (CNewClient (hostPort statsd_config)
                          (namespace statsd_config status))) as [e|].
  - eexists _, _. split; [reflexivity|]. split; [constructor|].
    eexists. reflexivity.
  - unfold defer. rewrite groups_sendAll.
    match goal with
    | |- context [sendAll ?c ?gs ?w'] =>
      destruct (sendAll_runs c gs w') as [H | (pre & g & post & e & Hgs & H)]
    end; rewrite H; unfold statsd.Close; rewrite perform_eq; cbn [fst snd];
      rewrite !extend_extend.
    + eexists _, _. split; [reflexivity|]. cbn [app].
      split; [apply Complete|]. eexists. reflexivity.
    + eexists _, _. split; [reflexivity|]. cbn [app].
      rewrite <- app_assoc. cbn [app].
      split; [eapply Aborted; exact Hgs|]. eexists. reflexivity.
Qed.

(** [pushStats] never panics. *)
Lemma pushStats_returns (statsd_config : Statsd.t) (status : ServerStatus.t)
      (w : World) :
  exists err, snd (pushStats statsd_config status w) = Returns err.
Proof.
  destruct (pushStats_published statsd_config status w) as (l & err & H & _).
  exists err. now rewrite H.
Qed.

(** ** The shape of one status retrieval *)

Lemma serverStatus_retrieved (mongo_config : Mongo.t) (w : World) :
  exists l r,
    serverStatus mongo_config w = (extend w l, r)
    /\ Retrieved mongo_config l (panicOf r)
    /\ exists rest,
         l = (dialCall mongo_config,
              answer (env w) (log w) (dialCall mongo_config)) :: rest.
Proof.
  pose proof (@QueryFailed mongo_config) as QF.
  pose proof (@QueryAnswered mongo_config) as QA.
  pose proof (@LoginFailed mongo_config) as LF.
  unfold serverStatus, mgo.DialWithInfo, defer, mgo.Close, mgo.Login,
    mgo.SetMode, mgo.Run, loggedIn in *.
  fold (dialCall mongo_config) (loginCall mongo_config).
  unfold bind, panic, ret.
  repeat progress
    (cbv beta iota; cbn [fst snd]; rewrite ?perform_eq;
     try match goal with
         | |- context [match answer ?e ?h ?c with _ => _ end] =>
           destruct (answer e h c) eqn:?
         | |- context [if 0 <? ?x then _ else _] =>
           let Hu := fresh "Hu" in
           destruct (0 <? x) eqn:Hu; [apply Z.ltb_lt in Hu as Hpos|]
         end).
  all: rewrite ?extend_extend; cbn [app];
    eexists _, _; (split; [reflexivity|]);
    (split; [|eexists; reflexivity]); cbn [panicOf]; auto.
  all: try (first [rewrite Hu in QF, QA | idtac]; cbn [app] in QF, QA).
  all: solve [constructor | apply QF | apply QA | auto].
Qed.

(** ** Reading a publish off its shape *)

(** On a valid snapshot the gauges the code walks through are, row by
    row, the gauges of the table. *)
Lemma statsGauges_table (status : ServerStatus.t) :
  validStatus status -> statsGauges status = tableGauges status.
Proof.
  unfold validStatus, statusInts. intros H.
  apply Forall_app in H as [_ H]. apply Forall_app in H as [H _].
  inversion H as [|? ? H1 H']; subst. inversion H' as [|? ? H2 H'']; subst.
  inversion H'' as [|? ? H3 _]; subst.
  unfold statsGauges, connectionsGauges, tableGauges. simpl.
  now rewrite !int64_id.
Qed.

Lemma table_names_NoDup : NoDup (map metric table_4_3).
Proof.
  simpl.
  repeat (constructor;
          [ simpl; intros H;
            repeat (destruct H as [H|H]; [discriminate H|]); exact H
          | ]).
  constructor.
Qed.

(** Every gauge entry of a publish carries the client of that publish,
    rate 1.0, and a name and value from [statsGauges]. *)
Lemma published_gauge (statsd_config : Statsd.t) (status : ServerStatus.t)
      (l : list Entry) (err : error) :
  Published statsd_config status l err ->
  forall c stat value rate a,
    In (CGauge c stat value rate, a) l ->
    c = clientOf statsd_config status /\ rate = 1.0%Q%Q
    /\ In (stat, value) (statsGauges status).
Proof.
  intros P c stat value rate a Hin.
  assert (Hsent : forall gs, In (CGauge c stat value rate, a)
                               (map (sent (clientOf statsd_config status)) gs) ->
                        c = clientOf statsd_config status /\ rate = 1.0%Q%Q
                        /\ In (stat, value) gs).
  { intros gs H. apply in_map_iff in H as ([n v] & E & Hg).
    unfold sent in E. simpl in E. injection E as <- <- <- <- _. auto. }
  destruct P as [e | a0 | pre post g e a0 Hgs].
  - destruct Hin as [E | []]. discriminate E.
  - destruct Hin as [E | Hin]; [discriminate E|].
    apply in_app_or in Hin as [Hin | [E | []]]; [|discriminate E].
    now apply Hsent.
  - destruct Hin as [E | Hin]; [discriminate E|].
    apply in_app_or in Hin as [Hin | [E | [E | []]]]; [| |discriminate E].
    + apply Hsent in Hin as (-> & -> & Hin). repeat split; auto.
      rewrite Hgs. apply in_or_app. now left.
    + injection E as <- <- <- <- _. repeat split; auto.
      rewrite Hgs. apply in_or_app. right. left. now destruct g.
Qed.

(** The gauges of a publish are an initial segment of [statsGauges]. *)
Lemma published_prefix (statsd_config : Statsd.t) (status : ServerStatus.t)
      (l : list Entry) (err : error) :
  Published statsd_config status l err ->
  exists k, gaugesOf l = firstn k (statsGauges status).
Proof.
  intros [e | a | pre post g e a Hgs]; cbn [gaugesOf].
  - now exists 0%nat.
  - exists 23%nat. rewrite gaugesOf_app, gaugesOf_sent. cbn [gaugesOf].
    now rewrite app_nil_r.
  - exists (S (List.length pre)).
    rewrite gaugesOf_app, gaugesOf_sent. cbn [gaugesOf].
    rewrite Hgs. 
    replace (pre ++ g :: post) with ((pre ++ [g]) ++ post)
      by (now rewrite <- app_assoc).
    replace (S (List.length pre)) with (List.length (pre ++ [g]) + 0)%nat
      by (rewrite length_app; simpl; lia).
    rewrite firstn_app_2. simpl. rewrite app_nil_r. now destruct g.
Qed.

(** A publish that returns [nil] sent every gauge. *)
Lemma published_complete (statsd_config : Statsd.t) (status : ServerStatus.t)
      (l : list Entry) :
  Published statsd_config status l None ->
  gaugesOf l = statsGauges status
  /\ map fst l
     = CNewClient (hostPort statsd_config) (namespace statsd_config status)
       :: map (fun g => CGauge (clientOf statsd_config status) (fst g) (snd g) 1.0)
              (statsGauges status)
       ++ [CClientClose (clientOf statsd_config status)].
Proof.
  intros P. inversion P; subst. split.
  - cbn [gaugesOf]. rewrite gaugesOf_app, gaugesOf_sent. cbn [gaugesOf].
    now rewrite app_nil_r.
  - cbn [map fst]. rewrite map_app, map_map. reflexivity.
Qed.

Lemma success_complete (statsd_config : Statsd.t) (status : ServerStatus.t)
      (w : World) :
  snd (pushStats statsd_config status w) = Returns None ->
  Published statsd_config status (emitted (pushStats statsd_config status) w)
            None.
Proof.
  destruct (pushStats_published statsd_config status w)
    as (l & err & H & P & _).
  rewrite (emitted_extend _ H), H. simpl. intros E.
  injection E as ->. exact P.
Qed.


(** Every value the table asks for is one of the integers of the
    snapshot, so it fits [int64] on a valid snapshot. *)
Lemma tableGauges_in_range (status : ServerStatus.t) :
  validStatus status ->
  Forall (fun g => Int64.in_range (snd g)) (tableGauges status).
Proof.
  unfold validStatus, statusInts, rwtInts, opcountersInts. cbn [app].
  intros Hv. rewrite !Forall_cons_iff in Hv. decompose [and] Hv. clear Hv.
  unfold tableGauges, table_4_3. cbn [map metric field snd].
  repeat (constructor; [assumption|]). constructor.
Qed.

Lemma db1_valid : validStatus db1.
Proof.
  unfold validStatus. apply Forall_forall. intros z Hz.
  apply in_rangeb_spec.
  assert (H : forallb Int64.in_rangeb (statusInts db1) = true) by reflexivity.
  rewrite forallb_forall in H. now apply H.
Qed.

(** In a publish that returns [nil] every gauge went through. *)
Lemma published_complete_sent (statsd_config : Statsd.t)
      (status : ServerStatus.t) (l : list Entry) :
  Published statsd_config status l None ->
  forall c stat value rate a, In (CGauge c stat value rate, a) l -> a = None.
Proof.
  intros P. remember None as err eqn:Herr.
  destruct P as [e | a0 | pre post g e a0 Hgs]; try discriminate Herr.
  intros c stat value rate a Hin.
  destruct Hin as [E | Hin]; [discriminate E|].
  apply in_app_or in Hin as [Hin | [E | []]]; [|discriminate E].
  apply in_map_iff in Hin as (g & E & _). unfold sent in E.
  now injection E.
Qed.

(** * The claims *)

Unset Implicit Arguments.

(** ** C1: what a successful publish emits *)

(** C1 (as amended).  For every valid snapshot, a publish that returns
    [nil] emits exactly the metric names of the table of section 4.3,
    which are 23 names and not 20, each exactly once; the value sent
    under a name is the snapshot field of its row, an [int64], at rate
    1.0; no other name is emitted. *)
Theorem C1_publish_emits_table (statsd_config : Statsd.t)
        (status : ServerStatus.t) (w : World) :
  validStatus status ->
  snd (pushStats statsd_config status w) = Returns None ->
  List.length table_4_3 = 23%nat
  /\ List.length (gaugesOf (emitted (pushStats statsd_config status) w))
     = 23%nat
  /\ NoDup (map fst (gaugesOf (emitted (pushStats statsd_config status) w)))
  /\ (forall stat value,
         In (stat, value)
            (gaugesOf (emitted (pushStats statsd_config status) w))
         <-> exists row,
             In row table_4_3 /\ metric row = stat /\ field row status = value)
  /\ (forall c stat value rate a,
         In (CGauge c stat value rate, a)
            (emitted (pushStats statsd_config status) w) ->
         Int64.in_range value /\ rate = 1.0%Q /\ a = None).
Proof.
  intros Hv Hok.
  pose proof (success_complete _ _ _ Hok) as P.
  set (entries := emitted (pushStats statsd_config status) w) in *.
  destruct (published_complete P) as [Hg _].
  rewrite Hg, (statsGauges_table Hv).
  split; [reflexivity|]. split; [reflexivity|]. split; [|split].
  - unfold tableGauges. rewrite map_map. apply table_names_NoDup.
  - intros stat value. unfold tableGauges. rewrite in_map_iff. split.
    + intros (row & E & Hin). injection E as <- <-. now exists row.
    + intros (row & Hin & <- & <-). now exists row.
  - intros c stat value rate a Hin.
    destruct (published_gauge P _ _ _ _ _ Hin) as (_ & -> & Hsv).
    rewrite (statsGauges_table Hv) in Hsv.
    split; [|split; [reflexivity|]].
    + pose proof (tableGauges_in_range Hv) as Hr.
      rewrite Forall_forall in Hr. apply (Hr _ Hsv).
    + exact (published_complete_sent P _ _ _ _ _ Hin).
Qed.

(** At a concrete valid snapshot and a sink that accepts everything. *)
Lemma C1_publish_emits_table_witness :
  validStatus db1
  /\ snd (pushStats prod_flat db1 (blank calm)) = Returns None
  /\ List.length (gaugesOf (emitted (pushStats prod_flat db1) (blank calm)))
     = 23%nat.
Proof.
  assert (Hv : validStatus db1).
  { unfold validStatus. simpl. repeat constructor; apply in_rangeb_spec;
      reflexivity. }
  assert (Hok : snd (pushStats prod_flat db1 (blank calm)) = Returns None)
    by (vm_compute; reflexivity).
  split; [exact Hv|]. split; [exact Hok|].
  exact (proj1 (proj2 (C1_publish_emits_table prod_flat db1 (blank calm)
                         Hv Hok))).
Defined.

(** C1 as it is worded asks for 20 names: a successful publish of a
    valid snapshot does not emit 20 gauges, and the table does not have
    20 rows. *)
Lemma C1_not_twenty :
  validStatus db1
  /\ snd (pushStats prod_flat db1 (blank calm)) = Returns None
  /\ List.length (gaugesOf (emitted (pushStats prod_flat db1) (blank calm)))
     <> 20%nat
  /\ List.length table_4_3 <> 20%nat.
Proof.
  split; [exact db1_valid|].
  split; [vm_compute; reflexivity|].
  split; vm_compute; discriminate.
Qed.

(** ** C4: the namespace prefix *)

Lemma string_append_assoc (a b c : string) :
  ((a ++ b) ++ c = a ++ (b ++ c))%string.
Proof. induction a as [|x a IH]; simpl; [reflexivity | now rewrite IH]. Qed.

(** C4.  The prefix handed to [statsd.NewClient], which every gauge of
    the cycle is sent under, is environment, cluster and snapshot host
    joined by dots when a cluster is configured, and environment and
    snapshot host otherwise.  The host is the one of the snapshot:
    [pushStats] does not see the connection configuration. *)
Theorem C4_namespace_prefix (statsd_config : Statsd.t)
        (status : ServerStatus.t) (w : World) :
  exists addr prefix a rest,
    emitted (pushStats statsd_config status) w
    = (CNewClient addr prefix, a) :: rest
    /\ (Statsd.Cluster statsd_config <> EmptyString ->
        prefix = (Statsd.Env statsd_config ++ "."
                  ++ Statsd.Cluster statsd_config ++ "."
                  ++ ServerStatus.Host status)%string)
    /\ (Statsd.Cluster statsd_config = EmptyString ->
        prefix = (Statsd.Env statsd_config ++ "."
                  ++ ServerStatus.Host status)%string)
    /\ (forall c stat value rate a',
           In (CGauge c stat value rate, a') rest -> client_prefix c = prefix).
Proof.
  destruct (pushStats_published statsd_config status w)
    as (l & err & H & P & rest & Hl).
  exists (hostPort statsd_config), (namespace statsd_config status),
    (answer (env w) (log w)
       (CNewClient (hostPort statsd_config) (namespace statsd_config status))),
    rest.
  rewrite (emitted_extend _ H). split; [exact Hl|].
  unfold namespace, fmt.Sprintf_s_dot_s. split; [|split].
  - intros Hc. apply len_pos in Hc. rewrite Hc.
    now rewrite !string_append_assoc.
  - intros Hc. apply len_zero in Hc. now rewrite Hc.
  - intros c stat value rate a' Hin.
    assert (Hin' : In (CGauge c stat value rate, a') l)
      by (rewrite Hl; now right).
    destruct (published_gauge P _ _ _ _ _ Hin') as (-> & _). reflexivity.
Qed.

(** The two examples of the specification. *)
Lemma C4_namespace_prefix_witness :
  (exists addr a rest,
      emitted (pushStats prod_flat db1) (blank calm)
      = (CNewClient addr "prod.db1", a) :: rest)
  /\ (exists addr a rest,
         emitted (pushStats prod_shardA db1) (blank calm)
         = (CNewClient addr "prod.shardA.db1", a) :: rest).
Proof.
  split.
  - destruct (C4_namespace_prefix prod_flat db1 (blank calm))
      as (addr & prefix & a & rest & E & _ & Hflat & _).
    exists addr, a, rest. rewrite E. now rewrite (Hflat eq_refl).
  - destruct (C4_namespace_prefix prod_shardA db1 (blank calm))
      as (addr & prefix & a & rest & E & Hshard & _ & _).
    exists addr, a, rest. rewrite E.
    rewrite Hshard; [reflexivity | discriminate].
Defined.

(** ** C5: the order of the gauges *)

(** C5.  In a publish that returns [nil] the gauges go out in one fixed
    order: connections, then ops, mem, global_lock and extra, and inside
    each group in the order of the table of section 4.3. *)
Theorem C5_publish_order (statsd_config : Statsd.t) (status : ServerStatus.t)
        (w : World) :
  snd (pushStats statsd_config status w) = Returns None ->
  map fst (gaugesOf (emitted (pushStats statsd_config status) w))
  = [ "connections.current"; "connections.available"; "connections.created";
      "ops.inserts"; "ops.queries"; "ops.updates"; "ops.deletes";
      "ops.getmores"; "ops.commands";
      "mem.resident"; "mem.virtual"; "mem.mapped"; "mem.mapped_with_journal";
      "global_lock.total_time"; "global_lock.lock_time";
      "global_lock.active_readers"; "global_lock.active_writers";
      "global_lock.active_total"; "global_lock.queued_readers";
      "global_lock.queued_writers"; "global_lock.queued_total";
      "extra.page_faults"; "extra.heap_usage" ]
  /\ map fst (gaugesOf (emitted (pushStats statsd_config status) w))
     = map metric table_4_3
  /\ map groupOf
         (map fst (gaugesOf (emitted (pushStats statsd_config status) w)))
     = map Some
           (repeat connections 3 ++ repeat ops 6 ++ repeat mem 4
            ++ repeat global_lock 8 ++ repeat extra 2)
  /\ map (fun r => Some (group r)) table_4_3
     = map groupOf (map metric table_4_3).
Proof.
  intros Hok.
  destruct (published_complete (success_complete _ _ _ Hok)) as [Hg _].
  rewrite Hg. repeat split; reflexivity.
Qed.

Lemma C5_publish_order_witness :
  snd (pushStats prod_shardA db1 (blank calm)) = Returns None
  /\ firstn 4 (map fst (gaugesOf (emitted (pushStats prod_shardA db1)
                                          (blank calm))))
     = [ "connections.current"; "connections.available";
         "connections.created"; "ops.inserts" ].
Proof.
  assert (Hok : snd (pushStats prod_shardA db1 (blank calm)) = Returns None)
    by (vm_compute; reflexivity).
  split; [exact Hok|].
  rewrite (proj1 (C5_publish_order prod_shardA db1 (blank calm) Hok)).
  reflexivity.
Defined.

(** ** C8: connections.available is passed through *)

(** C8.  Whatever value is sent under "connections.available" is the
    [Available] field of the snapshot as it is, negative or not, and a
    publish that returns [nil] does send it. *)
Theorem C8_available_unmodified (statsd_config : Statsd.t)
        (status : ServerStatus.t) (w : World) :
  Int64.in_range (Connections.Available (ServerStatus.Connections status)) ->
  (forall c value rate a,
      In (CGauge c "connections.available" value rate, a)
         (emitted (pushStats statsd_config status) w) ->
      value = Connections.Available (ServerStatus.Connections status))
  /\ (snd (pushStats statsd_config status w) = Returns None ->
      In ("connections.available",
          Connections.Available (ServerStatus.Connections status))
         (gaugesOf (emitted (pushStats statsd_config status) w))).
Proof.
  intros Hr.
  destruct (pushStats_published statsd_config status w)
    as (l & err & H & P & _).
  rewrite (emitted_extend _ H). split.
  - intros c value rate a Hin.
    destruct (published_gauge P _ _ _ _ _ Hin) as (_ & _ & Hsv).
    unfold statsGauges, connectionsGauges in Hsv. simpl in Hsv.
    repeat (destruct Hsv as [E | Hsv]; [try discriminate E|]);
      [|contradiction].
    injection E as <-. now apply int64_id.
  - intros Hok. rewrite H in Hok. simpl in Hok. injection Hok as ->.
    destruct (published_complete P) as [-> _].
    unfold statsGauges, connectionsGauges. simpl.
    right. left. now rewrite int64_id.
Qed.

(** With a negative value: [db1] reports -5 connections available. *)
Lemma C8_available_unmodified_witness :
  Int64.in_range (-5)
  /\ In ("connections.available", -5)
        (gaugesOf (emitted (pushStats prod_flat db1) (blank calm))).
Proof.
  assert (Hr : Int64.in_range
                 (Connections.Available (ServerStatus.Connections db1))).
  { apply in_rangeb_spec. reflexivity. }
  split; [exact Hr|].
  apply (proj2 (C8_available_unmodified prod_flat db1 (blank calm) Hr)).
  vm_compute. reflexivity.
Defined.

(** ** C10: no client, no gauge *)

(** C10.  When [statsd.NewClient] fails, [pushStats] returns that error
    at once: the call to [NewClient] is all it did, no gauge was
    attempted and no client was closed. *)
Theorem C10_no_client_no_gauge (statsd_config : Statsd.t)
        (status : ServerStatus.t) (w : World) (e : string) :
  answer (env w) (log w)
    (CNewClient (hostPort statsd_config) (namespace statsd_config status))
  = Some e ->
  pushStats statsd_config status w
  = (extend w [(CNewClient (hostPort statsd_config)
                           (namespace statsd_config status), Some e)],
     Returns (Some e))
  /\ emitted (pushStats statsd_config status) w
     = [(CNewClient (hostPort statsd_config)
                    (namespace statsd_config status), Some e)]
  /\ gaugesOf (emitted (pushStats statsd_config status) w) = [].
Proof.
  intros Ha.
  destruct (pushStats_published statsd_config status w)
    as (l & err & H & P & rest & Hl).
  rewrite Ha in Hl.
  assert (El : l = [(CNewClient (hostPort statsd_config)
                                (namespace statsd_config status), Some e)]
               /\ err = Some e).
  { destruct P as [e0 | a0 | pre post g e0 a0 Hgs].
    - injection Hl as <-. now split.
    - discriminate Hl.
    - discriminate Hl. }
  destruct El as [-> ->].
  rewrite (emitted_extend _ H). now repeat split.
Qed.

Lemma C10_no_client_no_gauge_witness :
  answer (sink_down "lookup statsd: no such host") []
    (CNewClient (hostPort prod_flat) (namespace prod_flat db1))
  = Some "lookup statsd: no such host"
  /\ snd (pushStats prod_flat db1
            (blank (sink_down "lookup statsd: no such host")))
     = Returns (Some "lookup statsd: no such host")
  /\ gaugesOf (emitted (pushStats prod_flat db1)
                 (blank (sink_down "lookup statsd: no such host"))) = [].
Proof.
  pose proof (C10_no_client_no_gauge prod_flat db1
                (blank (sink_down "lookup statsd: no such host"))
                "lookup statsd: no such host" eq_refl) as (H & _ & Hg).
  split; [reflexivity|]. split; [now rewrite H | exact Hg].
Defined.

(** ** C7: authentication *)

(** C7.  [serverStatus] logs in exactly when the configured user name is
    not empty: with an empty user name no login is ever issued and the
    query follows the dial directly; with a user name, the login with
    the configured name and password is issued as soon as the dial has
    succeeded, and every query comes after it. *)
Theorem C7_login_iff_username (mongo_config : Mongo.t) (w : World) :
  let calls := map fst (emitted (serverStatus mongo_config) w) in
  (Mongo.User mongo_config = EmptyString ->
   (forall cred, ~ In (CLogin cred) calls)
   /\ (answer (env w) (log w) (dialCall mongo_config) = None ->
       exists rest,
         calls = dialCall mongo_config :: CSetMode Monotonic true
                 :: CRun "serverStatus" :: rest))
  /\ (Mongo.User mongo_config <> EmptyString ->
      (forall cred,
          In (CLogin cred) calls ->
          cred = {| Username := Mongo.User mongo_config;
                    Password := Mongo.Pass mongo_config |})
      /\ (answer (env w) (log w) (dialCall mongo_config) = None ->
          exists rest,
            calls = dialCall mongo_config :: loginCall mongo_config :: rest)
      /\ (forall pre cmd post,
             calls = pre ++ CRun cmd :: post ->
             In (loginCall mongo_config) pre)).
Proof.
  intros calls.
  destruct (serverStatus_retrieved mongo_config w)
    as (l & r & H & R & rest0 & Hl).
  subst calls. rewrite (emitted_extend _ H).
  split.
  - intros Hu. apply len_zero in Hu.
    assert (Hno : loggedIn mongo_config = []) by (unfold loggedIn; now rewrite Hu).
    split.
    + intros cred Hin.
      destruct R as [e | e a Hpos | e m a | m a]; rewrite ?Hno in Hin;
        simpl in Hin.
      * destruct Hin as [E | []]. discriminate E.
      * apply Z.ltb_lt in Hpos. congruence.
      * repeat (destruct Hin as [E | Hin]; [discriminate E|]). exact Hin.
      * repeat (destruct Hin as [E | Hin]; [discriminate E|]). exact Hin.
    + intros Hd. rewrite Hd in Hl.
      destruct R as [e | e a Hpos | e m a | m a]; rewrite ?Hno in *.
      * discriminate Hl.
      * apply Z.ltb_lt in Hpos. congruence.
      * simpl. now eexists.
      * simpl. now eexists.
  - intros Hu. apply len_pos in Hu.
    assert (Hin1 : loggedIn mongo_config = [(loginCall mongo_config, None)])
      by (unfold loggedIn; now rewrite Hu).
    split; [|split].
    + intros cred Hin.
      destruct R as [e | e a Hpos | e m a | m a]; rewrite ?Hin1 in Hin;
        simpl in Hin;
        repeat (destruct Hin as [E | Hin];
                [first [discriminate E | now injection E]|]);
        contradiction.
    + intros Hd. rewrite Hd in Hl.
      destruct R as [e | e a Hpos | e m a | m a]; rewrite ?Hin1 in *.
      * discriminate Hl.
      * simpl. now eexists.
      * simpl. now eexists.
      * simpl. now eexists.
    + intros pre cmd post E.
      destruct R as [e | e a Hpos | e m a | m a]; rewrite ?Hin1 in E;
        simpl in E.
      * destruct pre as [|? [|? ?]]; discriminate E.
      * destruct pre as [|? [|? [|? [|? ?]]]]; discriminate E.
      * destruct pre as [|? [|? [|? [|? [|? [|? ?]]]]]]; try discriminate E.
        injection E as <- <- <- _ _. simpl. auto.
      * destruct pre as [|? [|? [|? [|? [|? [|? ?]]]]]]; try discriminate E.
        injection E as <- <- <- _ _. simpl. auto.
Qed.

(** Without and with a configured user, against a server that accepts
    everything. *)
Lemma C7_login_iff_username_witness :
  (Mongo.User mongo_open = EmptyString
   /\ forall cred,
       ~ In (CLogin cred)
            (map fst (emitted (serverStatus mongo_open) (blank calm))))
  /\ (Mongo.User mongo_auth <> EmptyString
      /\ exists rest,
          map fst (emitted (serverStatus mongo_auth) (blank calm))
          = dialCall mongo_auth
            :: CLogin {| Username := "monitor"; Password := "s3cret" |}
            :: rest).
Proof.
  split.
  - split; [reflexivity|].
    exact (proj1 (proj1 (C7_login_iff_username mongo_open (blank calm))
                        eq_refl)).
  - assert (Hu : Mongo.User mongo_auth <> EmptyString) by discriminate.
    split; [exact Hu|].
    exact (proj1 (proj2 (proj2 (C7_login_iff_username mongo_auth (blank calm))
                               Hu))
                 eq_refl).
Defined.

(** ** C3: a refused gauge ends the publish *)

Lemma sent_not_failed (client : Client) (gs : list (string * Z)) :
  forallb (fun en => negb (failedGauge en)) (map (sent client) gs) = true.
Proof. induction gs as [|g gs IH]; simpl; auto. Qed.

(** A list with a single refused gauge splits around it in one way. *)
Lemma split_at_failure (l1 l2 l1' l2' : list Entry) (x x' : Entry) :
  forallb (fun en => negb (failedGauge en)) l1 = true ->
  forallb (fun en => negb (failedGauge en)) l2 = true ->
  failedGauge x' = true ->
  l1 ++ x :: l2 = l1' ++ x' :: l2' ->
  l1 = l1' /\ x = x' /\ l2 = l2'.
Proof.
  intros H1 H2 Hx'. revert l1' H1.
  induction l1 as [|a l1 IH]; intros l1' H1 E.
  - destruct l1' as [|y l1']; simpl in E.
    + injection E as -> ->. auto.
    + injection E as -> ->.
      rewrite forallb_app in H2. simpl in H2. rewrite Hx' in H2.
      simpl in H2. rewrite andb_false_r in H2. discriminate H2.
  - simpl in H1. apply andb_true_iff in H1 as [Ha H1].
    destruct l1' as [|y l1']; simpl in E.
    + injection E as -> _. rewrite Hx' in Ha. discriminate Ha.
    + injection E as -> E. destruct (IH l1' H1 E) as (-> & -> & ->). auto.
Qed.

Lemma no_failure_no_split (l l1 l2 : list Entry) (x : Entry) :
  forallb (fun en => negb (failedGauge en)) l = true ->
  failedGauge x = true ->
  l <> l1 ++ x :: l2.
Proof.
  intros H Hx E. subst l. rewrite forallb_app in H. simpl in H.
  rewrite Hx in H. simpl in H. rewrite andb_false_r in H. discriminate H.
Qed.

(** C3.  When a gauge of a cycle is refused: no gauge is attempted after
    it (only the deferred close of the client follows); the gauges
    before it went through and stay in the log as they are; [pushStats]
    returns the error of the refused gauge; and the tick branch of the
    loop prints that error and returns normally.  The gauges attempted
    are the first ones of the cycle up to and including the refused one:
    three when the third is refused. *)
Theorem C3_refused_gauge_aborts (config : Config.t) (w w1 : World)
        (status : ServerStatus.t) (pre post : list Entry) (c : Client)
        (stat : string) (value : Z) (rate : Q) (e : string) :
  serverStatus (Config.Mongo config) w = (w1, Returns status) ->
  emitted (pushStats (Config.Statsd config) status) w1
  = pre ++ (CGauge c stat value rate, Some e) :: post ->
  (gaugesOf post = [] /\ exists a, post = [(CClientClose c, a)])
  /\ (exists k,
         pre = (CNewClient (hostPort (Config.Statsd config))
                           (namespace (Config.Statsd config) status), None)
               :: map (sent c) (firstn k (statsGauges status))
         /\ nth_error (statsGauges status) k = Some (stat, value))
  /\ log (fst (pushStats (Config.Statsd config) status w1))
     = log w1 ++ pre ++ (CGauge c stat value rate, Some e) :: post
  /\ snd (pushStats (Config.Statsd config) status w1) = Returns (Some e)
  /\ (exists a,
         tickCase config w
         = (extend (fst (pushStats (Config.Statsd config) status w1))
                   [(CPrintln e, a)],
            Returns tt))
  /\ gaugesOf (emitted (pushStats (Config.Statsd config) status) w1)
     = firstn (S (List.length (gaugesOf pre))) (statsGauges status).
Proof.
  intros Hss Hsplit.
  destruct (pushStats_published (Config.Statsd config) status w1)
    as (l & err & H & P & _).
  rewrite (emitted_extend _ H) in *.
  assert (Hx : failedGauge (CGauge c stat value rate, Some e) = true)
    by reflexivity.
  destruct P as [e0 | a0 | pre0 post0 g e0 a0 Hgs].
  - exfalso. revert Hsplit. apply no_failure_no_split; [reflexivity | exact Hx].
  - exfalso. revert Hsplit. apply no_failure_no_split; [|exact Hx].
    cbn [forallb failedGauge fst snd isGauge andb negb].
    rewrite forallb_app, sent_not_failed. reflexivity.
  - change ((CNewClient (hostPort (Config.Statsd config))
                        (namespace (Config.Statsd config) status), None)
            :: map (sent (clientOf (Config.Statsd config) status)) pre0
            ++ [(CGauge (clientOf (Config.Statsd config) status)
                        (fst g) (snd g) 1.0, Some e0);
                (CClientClose (clientOf (Config.Statsd config) status), a0)])
      with (((CNewClient (hostPort (Config.Statsd config))
                         (namespace (Config.Statsd config) status), None)
             :: map (sent (clientOf (Config.Statsd config) status)) pre0)
            ++ (CGauge (clientOf (Config.Statsd config) status)
                       (fst g) (snd g) 1.0, Some e0)
               :: [(CClientClose (clientOf (Config.Statsd config) status), a0)])
      in Hsplit.
    apply split_at_failure in Hsplit; [| |reflexivity|exact Hx].
    2:{ cbn [forallb failedGauge fst snd isGauge andb negb].
        apply sent_not_failed. }
    destruct Hsplit as (<- & Ex & <-).
    injection Ex as <- <- <- <- <-.
    assert (Hk : firstn (List.length pre0) (statsGauges status) = pre0).
    { rewrite Hgs.
      replace (List.length pre0) with (List.length pre0 + 0)%nat by lia.
      rewrite firstn_app_2. simpl. apply app_nil_r. }
    split; [|split; [|split; [|split; [|split]]]].
    + split; [reflexivity | now eexists].
    + exists (List.length pre0). rewrite Hk. split; [reflexivity|].
      rewrite Hgs, nth_error_app2, Nat.sub_diag by lia. now destruct g.
    + rewrite H. reflexivity.
    + now rewrite H.
    + unfold tickCase. unfold bind at 1. rewrite Hss.
      unfold bind at 1. rewrite H. unfold bind, ret, fmt.Println.
      rewrite perform_eq. cbn [fst]. now eexists.
    + cbn [gaugesOf]. rewrite gaugesOf_sent.
      rewrite gaugesOf_app, gaugesOf_sent. cbn [gaugesOf].
      rewrite Hgs.
      replace (pre0 ++ g :: post0) with ((pre0 ++ [g]) ++ post0)
        by (now rewrite <- app_assoc).
      replace (S (List.length pre0)) with (List.length (pre0 ++ [g]) + 0)%nat
        by (rewrite length_app; simpl; lia).
      rewrite firstn_app_2. simpl. rewrite app_nil_r. now destruct g.
Qed.

(** The third gauge of a cycle is refused: three gauges are attempted,
    the error comes back and is printed. *)
Lemma C3_refused_gauge_aborts_witness :
  serverStatus (Config.Mongo sample_config) (blank third_refused)
  = (third_refused_retrieved, Returns db1)
  /\ List.length
       (gaugesOf (emitted (pushStats (Config.Statsd sample_config) db1)
                          third_refused_retrieved)) = 3%nat
  /\ snd (pushStats (Config.Statsd sample_config) db1 third_refused_retrieved)
     = Returns (Some "write udp 127.0.0.1:8125: connection refused")
  /\ snd (tickCase sample_config (blank third_refused)) = Returns tt.
Proof.
  assert (Hss : serverStatus (Config.Mongo sample_config) (blank third_refused)
                = (third_refused_retrieved, Returns db1))
    by (vm_compute; reflexivity).
  pose proof
    (C3_refused_gauge_aborts sample_config (blank third_refused)
       third_refused_retrieved db1
       ((CNewClient "127.0.0.1:8125" "prod.shardA.db1", None)
        :: map (sent (clientOf prod_shardA db1))
               [("connections.current", 17); ("connections.available", -5)])
       [(CClientClose (clientOf prod_shardA db1), None)]
       (clientOf prod_shardA db1) "connections.created" 1200 1.0%Q
       "write udp 127.0.0.1:8125: connection refused"
       Hss ltac:(vm_compute; reflexivity))
    as (_ & _ & _ & Herr & (a & Htick) & Hg).
  split; [exact Hss|]. split; [|split].
  - rewrite Hg. reflexivity.
  - exact Herr.
  - rewrite Htick. reflexivity.
Defined.

(** ** C9: publishing is determined by its arguments and the sink *)

Lemma sinkAnswers_app (l l' : list Entry) :
  sinkAnswers (l ++ l') = sinkAnswers l ++ sinkAnswers l'.
Proof.
  induction l as [|[c a] l IH]; simpl; auto.
  destruct c; simpl; auto; now rewrite IH.
Qed.

Lemma sinkAnswers_sent (client : Client) (gs : list (string * Z)) :
  sinkAnswers (map (sent client) gs) = repeat None (List.length gs).
Proof. induction gs as [|g gs IH]; simpl; auto. now rewrite IH. Qed.

Lemma repeat_None_then_Some (k k' : nat) (e e' : string) :
  repeat (@None string) k ++ [Some e] = repeat None k' ++ [Some e'] ->
  k = k' /\ e = e'.
Proof.
  revert k'. induction k as [|k IH]; intros [|k'] E; simpl in E.
  - injection E as ->. auto.
  - destruct k'; discriminate E.
  - destruct k; discriminate E.
  - injection E as E. destruct (IH k' E) as [-> ->]. auto.
Qed.

Lemma app_same_length {A} (l1 l1' l2 l2' : list A) :
  List.length l1 = List.length l1' ->
  l1 ++ l2 = l1' ++ l2' ->
  l1 = l1' /\ l2 = l2'.
Proof.
  revert l1'. induction l1 as [|a l1 IH]; intros [|a' l1'] Hlen E;
    try discriminate Hlen; simpl in *.
  - auto.
  - injection E as -> E. injection Hlen as Hlen.
    destruct (IH l1' Hlen E) as [-> ->]. auto.
Qed.

Lemma nth_error_firstn_some {A} (k : nat) (l : list A) (i : nat) (x : A) :
  nth_error (firstn k l) i = Some x -> nth_error l i = Some x.
Proof.
  revert l i. induction k as [|k IH]; intros [|a l] [|i]; simpl;
    try discriminate; auto.
Qed.

(** C9 (as amended).  [pushStats] keeps no state: what a publish does
    is fixed by the configuration, the snapshot and the answers the
    sink gives during that publish.  Take any two worlds, whatever
    happened before in either; the second can be the world the first
    publish left.  The gauge writes of the two publishes are initial
    segments of one list that the snapshot alone fixes, so wherever both
    wrote, they wrote the same name and the same value; when the sink
    answers both alike, the two make the same calls in the same order
    (same client, names, values and rates) and return the same error;
    and when both return [nil], both wrote that whole list, all 23
    gauges of it. *)
Theorem C9_publish_deterministic (statsd_config : Statsd.t)
        (status : ServerStatus.t) (w w' : World) :
  (exists k k',
      gaugesOf (emitted (pushStats statsd_config status) w)
      = firstn k (statsGauges status)
      /\ gaugesOf (emitted (pushStats statsd_config status) w')
         = firstn k' (statsGauges status))
  /\ (forall i g g',
         nth_error (gaugesOf (emitted (pushStats statsd_config status) w)) i
         = Some g ->
         nth_error (gaugesOf (emitted (pushStats statsd_config status) w')) i
         = Some g' ->
         g = g')
  /\ (sinkAnswers (emitted (pushStats statsd_config status) w)
      = sinkAnswers (emitted (pushStats statsd_config status) w') ->
      map fst (emitted (pushStats statsd_config status) w)
      = map fst (emitted (pushStats statsd_config status) w')
      /\ gaugesOf (emitted (pushStats statsd_config status) w)
         = gaugesOf (emitted (pushStats statsd_config status) w')
      /\ snd (pushStats statsd_config status w)
         = snd (pushStats statsd_config status w'))
  /\ (snd (pushStats statsd_config status w) = Returns None ->
      snd (pushStats statsd_config status w') = Returns None ->
      gaugesOf (emitted (pushStats statsd_config status) w)
      = gaugesOf (emitted (pushStats statsd_config status) w')
      /\ gaugesOf (emitted (pushStats statsd_config status) w)
         = statsGauges status
      /\ List.length (statsGauges status) = 23%nat).
Proof.
  destruct (pushStats_published statsd_config status w)
    as (l & err & H & P & _).
  destruct (pushStats_published statsd_config status w')
    as (l' & err' & H' & P' & _).
  rewrite (emitted_extend _ H), (emitted_extend _ H'), H, H'. cbn [snd].
  destruct (published_prefix P) as (k & Hk).
  destruct (published_prefix P') as (k' & Hk').
  split; [now exists k, k'|]. split.
  { intros i g g'. rewrite Hk, Hk'. intros Hg Hg'.
    apply nth_error_firstn_some in Hg, Hg'. congruence. }
  clear k k' Hk Hk'. split.
  2:{ intros E E'. injection E as ->. injection E' as ->.
      destruct (published_complete P) as (G & _).
      destruct (published_complete P') as (G' & _).
      rewrite G, G'. repeat split; reflexivity. }
  intros E.
  destruct P as [e | a | pre post g e a Hgs];
    destruct P' as [e' | a' | pre' post' g' e' a' Hgs'];
    cbn [sinkAnswers] in E; try discriminate E;
    rewrite ?sinkAnswers_app, ?sinkAnswers_sent in E; cbn [sinkAnswers] in E.
  - injection E as ->. auto.
  - cbn [gaugesOf map fst]. rewrite !gaugesOf_app, !map_app. auto.
  - exfalso.
    match type of E with
    | ?L = _ => assert (Hin : In (Some e') L)
    end.
    { rewrite E. right. apply in_or_app. right. now left. }
    destruct Hin as [Hin | Hin]; [discriminate Hin|].
    apply in_app_or in Hin as [Hin | []].
    apply repeat_spec in Hin. discriminate Hin.
  - exfalso.
    match type of E with
    | _ = ?R => assert (Hin : In (Some e) R)
    end.
    { rewrite <- E. right. apply in_or_app. right. now left. }
    destruct Hin as [Hin | Hin]; [discriminate Hin|].
    apply in_app_or in Hin as [Hin | []].
    apply repeat_spec in Hin. discriminate Hin.
  - injection E as E. apply repeat_None_then_Some in E as [Hlen ->].
    rewrite Hgs in Hgs'.
    destruct (app_same_length _ _ _ _ Hlen Hgs') as [<- Eg].
    injection Eg as <- _.
    cbn [gaugesOf map fst]. rewrite !gaugesOf_app, !map_app. auto.
Qed.

(** Two publishes in a row against a sink that takes everything. *)
Lemma C9_publish_deterministic_witness :
  sinkAnswers (emitted (pushStats prod_flat db1) (blank calm))
  = sinkAnswers (emitted (pushStats prod_flat db1)
                         (fst (pushStats prod_flat db1 (blank calm))))
  /\ gaugesOf (emitted (pushStats prod_flat db1) (blank calm))
     = gaugesOf (emitted (pushStats prod_flat db1)
                         (fst (pushStats prod_flat db1 (blank calm)))).
Proof.
  assert (E : sinkAnswers (emitted (pushStats prod_flat db1) (blank calm))
              = sinkAnswers
                  (emitted (pushStats prod_flat db1)
                           (fst (pushStats prod_flat db1 (blank calm)))))
    by (vm_compute; reflexivity).
  split; [exact E|].
  exact (proj1 (proj2 (proj1 (proj2 (proj2
           (C9_publish_deterministic prod_flat db1 (blank calm)
              (fst (pushStats prod_flat db1 (blank calm)))))) E))).
Defined.

(** C9 as it is worded: the same snapshot published twice under the
    same configuration, against a sink that refuses its twenty-sixth
    gauge.  The first publish writes all 23 gauges and returns [nil];
    the second, from the world the first left, stops at its third. *)
Lemma C9_second_publish_differs :
  snd (pushStats prod_flat db1 (blank (gauge_fails_after 25 "sink full")))
  = Returns None
  /\ List.length
       (gaugesOf (emitted (pushStats prod_flat db1)
                          (blank (gauge_fails_after 25 "sink full"))))
     = 23%nat
  /\ snd (pushStats prod_flat db1
            (fst (pushStats prod_flat db1
                    (blank (gauge_fails_after 25 "sink full")))))
     = Returns (Some "sink full")
  /\ gaugesOf
       (emitted (pushStats prod_flat db1)
                (fst (pushStats prod_flat db1
                        (blank (gauge_fails_after 25 "sink full")))))
     = [("connections.current", 17); ("connections.available", -5);
        ("connections.created", 1200)]
  /\ gaugesOf (emitted (pushStats prod_flat db1)
                       (blank (gauge_fails_after 25 "sink full")))
     <> gaugesOf
          (emitted (pushStats prod_flat db1)
                   (fst (pushStats prod_flat db1
                           (blank (gauge_fails_after 25 "sink full"))))).
Proof.
  split; [vm_compute; reflexivity|]. split; [vm_compute; reflexivity|].
  split; [vm_compute; reflexivity|]. split; [vm_compute; reflexivity|].
  intros E.
  apply (f_equal (@List.length (string * Z))) in E.
  vm_compute in E. discriminate E.
Qed.

(** ** The tick branch of the loop *)

(** A panic of [serverStatus] passes through the tick branch. *)
Lemma tickCase_panics (config : Config.t) (w w1 : World) (v : string) :
  serverStatus (Config.Mongo config) w = (w1, Panics v) ->
  tickCase config w = (w1, Panics v).
Proof. intros H. unfold tickCase. unfold bind at 1. now rewrite H. Qed.

(** Once the snapshot is there the tick branch returns, whatever
    [pushStats] returned; the error, if any, is printed last. *)
Lemma tickCase_returns (config : Config.t) (w w1 : World)
      (status : ServerStatus.t) :
  serverStatus (Config.Mongo config) w = (w1, Returns status) ->
  snd (tickCase config w) = Returns tt
  /\ (forall e,
         snd (pushStats (Config.Statsd config) status w1) = Returns (Some e) ->
         exists a,
           fst (tickCase config w)
           = extend (fst (pushStats (Config.Statsd config) status w1))
                    [(CPrintln e, a)])
  /\ (snd (pushStats (Config.Statsd config) status w1) = Returns None ->
      fst (tickCase config w)
      = fst (pushStats (Config.Statsd config) status w1)).
Proof.
  intros H.
  destruct (pushStats_published (Config.Statsd config) status w1)
    as (l & err & Hp & _).
  assert (Ht : tickCase config w
               = match err with
                 | Some e =>
                   (extend (extend w1 l)
                      [(CPrintln e,
                        answer (env w1) (log w1 ++ l) (CPrintln e))],
                    Returns tt)
                 | None => (extend w1 l, Returns tt)
                 end).
  { unfold tickCase, bind. rewrite H. cbv beta iota. rewrite Hp.
    cbv beta iota. destruct err as [e|]; [|reflexivity].
    unfold fmt.Println, ret. rewrite perform_eq. reflexivity. }
  rewrite Ht, Hp. cbn [fst snd]. destruct err as [e|]; cbn [fst snd].
  - split; [reflexivity|]. split.
    + intros e' E. injection E as <-. now eexists.
    + intros E. discriminate E.
  - split; [reflexivity|]. split.
    + intros e' E. discriminate E.
    + reflexivity.
Qed.

(** [serverStatus] panics with the error of a dial, login or query that
    failed, and only then. *)
Lemma serverStatus_panics_iff (mongo_config : Mongo.t) (w : World) (v : string) :
  snd (serverStatus mongo_config w) = Panics v
  <-> exists c,
      isRetrieval c = true
      /\ In (c, Some v) (emitted (serverStatus mongo_config) w).
Proof.
  destruct (serverStatus_retrieved mongo_config w) as (l & r & H & R & _).
  rewrite (emitted_extend _ H), H. cbn [snd].
  assert (Hlog : forall c a, In (c, a) (loggedIn mongo_config) -> a = None).
  { intros c a. unfold loggedIn.
    destruct (0 <? len (Mongo.User mongo_config)); simpl; [|tauto].
    intros [E | []]. now injection E. }
  split.
  - intros E. subst r. cbn [panicOf] in R.
    inversion R; subst.
    + exists (dialCall mongo_config). split; [reflexivity | now left].
    + exists (loginCall mongo_config). split; [reflexivity|].
      right. now left.
    + exists (CRun "serverStatus"). split; [reflexivity|].
      right. apply in_or_app. right. right. now left.
  - intros (c & Hc & Hin).
    destruct r as [st | v']; cbn [panicOf] in R.
    + exfalso. inversion R; subst.
      destruct Hin as [E | Hin]; [discriminate E|].
      apply in_app_or in Hin as [Hin | Hin].
      * apply Hlog in Hin. discriminate Hin.
      * destruct Hin as [E | [E | [E | []]]]; try discriminate E;
          injection E as <- _; discriminate Hc.
    + f_equal. inversion R; subst.
      * destruct Hin as [E | []]. now injection E.
      * destruct Hin as [E | [E | [E | []]]]; try discriminate E.
        -- now injection E.
        -- injection E as <- _. discriminate Hc.
      * destruct Hin as [E | Hin]; [discriminate E|].
        apply in_app_or in Hin as [Hin | Hin].
        -- apply Hlog in Hin. discriminate Hin.
        -- destruct Hin as [E | [E | [E | []]]].
           ++ injection E as <- _. discriminate Hc.
           ++ now injection E.
           ++ injection E as <- _. discriminate Hc.
Qed.

(** ** C2: what a failed cycle does to the process *)

(** Only two moves end a running process: the return of [main], and a
    tick whose [serverStatus] panics. *)
Lemma process_ends_by (config : Config.t) (l : Label) (s s' : Sched) :
  step config l s = Some s' ->
  proc s' <> Running ->
  (l = MainSteps /\ main_pc s = QuitClosed /\ proc s' = Exited)
  \/ (l = LoopTakesTick
      /\ exists v,
          proc s' = Crashed v
          /\ snd (serverStatus (Config.Mongo config) (world s)) = Panics v).
Proof.
  unfold step. destruct (proc s) eqn:Hp; cbn [is_running]; try discriminate.
  destruct l.
  - destruct (ticker_running s); [|discriminate].
    intros E. injection E as <-. cbn [proc]. congruence.
  - destruct (main_pc s); try discriminate.
    intros E. injection E as <-. cbn [proc]. congruence.
  - unfold mainStep. destruct (main_pc s); try discriminate;
      intros E; injection E as <-; cbn [proc]; try congruence.
    intros _. left. auto.
  - unfold loopTick.
    destruct (loop_pc s); [|discriminate].
    destruct (tick_pending s); [|discriminate].
    intros E. injection E as <-. cbn [proc].
    destruct (serverStatus (Config.Mongo config) (world s)) as [w1 [st|v]] eqn:Hs.
    + rewrite (proj1 (tickCase_returns config (world s) _ _ Hs)). congruence.
    + rewrite (tickCase_panics config (world s) _ _ Hs). cbn [snd].
      intros _. right. split; [reflexivity|]. now exists v.
  - unfold loopQuit.
    destruct (loop_pc s); [|discriminate].
    destruct (quit_closed s); [|discriminate].
    intros E. injection E as <-. cbn [proc]. congruence.
Qed.

(** C2 (as amended).  With a tick waiting, the loop runs one cycle.
    If the snapshot is retrieved, the process goes on whatever the
    metrics side did: an error of [pushStats] (the sink not constructed,
    a gauge refused) is printed, the loop is back in its select with the
    ticker as it was, and the next tick runs the next cycle.  If the
    retrieval fails (dial, login or query), [serverStatus] panics with
    that error and the process is over: no further move exists.  The
    only other way a running process ends is the return of [main]. *)
Theorem C2_failed_cycle (config : Config.t) (s : Sched) :
  proc s = Running ->
  loop_pc s = Selecting ->
  tick_pending s = true ->
  exists s',
    step config LoopTakesTick s = Some s'
    /\ (forall w1 status,
           serverStatus (Config.Mongo config) (world s) = (w1, Returns status) ->
           proc s' = Running /\ loop_pc s' = Selecting
           /\ ticker_running s' = ticker_running s
           /\ (forall e,
                  snd (pushStats (Config.Statsd config) status w1)
                  = Returns (Some e) ->
                  exists a,
                    world s'
                    = extend (fst (pushStats (Config.Statsd config) status w1))
                             [(CPrintln e, a)])
           /\ (ticker_running s = true ->
               exists s2 s3,
                 step config TickerFires s' = Some s2
                 /\ step config LoopTakesTick s2 = Some s3))
    /\ (forall w1 v,
           serverStatus (Config.Mongo config) (world s) = (w1, Panics v) ->
           proc s' = Crashed v
           /\ (forall l, step config l s' = None)
           /\ exists c,
               isRetrieval c = true
               /\ In (c, Some v)
                     (emitted (serverStatus (Config.Mongo config)) (world s)))
    /\ (forall c e,
           isRetrieval c = true ->
           In (c, Some e)
              (emitted (serverStatus (Config.Mongo config)) (world s)) ->
           proc s' = Crashed e)
    /\ (forall l s0 s1,
           step config l s0 = Some s1 ->
           proc s1 <> Running ->
           (l = MainSteps /\ main_pc s0 = QuitClosed /\ proc s1 = Exited)
           \/ (l = LoopTakesTick
               /\ exists v,
                   proc s1 = Crashed v
                   /\ snd (serverStatus (Config.Mongo config) (world s0))
                      = Panics v)).
Proof.
  intros Hp Hl Ht.
  assert (Hstep : step config LoopTakesTick s
                  = Some {| world := fst (tickCase config (world s));
                            main_pc := main_pc s;
                            loop_pc := Selecting;
                            quit_closed := quit_closed s;
                            tick_pending := false;
                            ticker_running := ticker_running s;
                            proc := match snd (tickCase config (world s)) with
                                    | Returns _ => proc s
                                    | Panics v => Crashed v
                                    end |}).
  { unfold step. rewrite Hp. cbn [is_running]. unfold loopTick.
    rewrite Hl, Ht, ?Hp. reflexivity. }
  eexists. split; [exact Hstep|]. cbn [proc loop_pc ticker_running world].
  split; [|split; [|split]].
  - intros w1 status Hs.
    destruct (tickCase_returns config (world s) _ _ Hs) as (Hr & Herr & _).
    rewrite Hr. split; [exact Hp|]. split; [reflexivity|].
    split; [reflexivity|]. split; [exact Herr|].
    intros Hrun. unfold step. cbn [proc]. rewrite Hp.
    cbn [is_running ticker_running]. rewrite Hrun.
    eexists _, _. split; [reflexivity|].
    cbn [proc is_running]. unfold loopTick.
    cbn [loop_pc tick_pending]. reflexivity.
  - intros w1 v Hs. rewrite (tickCase_panics config (world s) _ _ Hs).
    cbn [snd]. split; [reflexivity|]. split.
    + intros l. unfold step. reflexivity.
    + apply serverStatus_panics_iff. now rewrite Hs.
  - intros c e Hc Hin.
    assert (Hpan : snd (serverStatus (Config.Mongo config) (world s))
                   = Panics e)
      by (apply serverStatus_panics_iff; now exists c).
    destruct (serverStatus (Config.Mongo config) (world s)) as [w1 r] eqn:Hs.
    cbn [snd] in Hpan. subst r.
    now rewrite (tickCase_panics config (world s) _ _ Hs).
  - intros l s0 s1. apply process_ends_by.
Qed.

(** A cycle whose third gauge is refused, then the next tick. *)
Lemma C2_failed_cycle_witness :
  proc (ticked third_refused) = Running
  /\ loop_pc (ticked third_refused) = Selecting
  /\ tick_pending (ticked third_refused) = true
  /\ exists s',
      step sample_config LoopTakesTick (ticked third_refused) = Some s'
      /\ proc s' = Running
      /\ exists s2 s3,
          step sample_config TickerFires s' = Some s2
          /\ step sample_config LoopTakesTick s2 = Some s3.
Proof.
  split; [reflexivity|]. split; [reflexivity|]. split; [reflexivity|].
  destruct (C2_failed_cycle sample_config (ticked third_refused)
              eq_refl eq_refl eq_refl) as (s' & Hstep & Hgo & _).
  exists s'. split; [exact Hstep|].
  destruct (Hgo third_refused_retrieved db1 ltac:(vm_compute; reflexivity))
    as (Hp & _ & _ & _ & Hnext).
  split; [exact Hp|]. exact (Hnext eq_refl).
Defined.

(** C2 as it is worded: a cycle whose dial fails ends the process; the
    next tick does not execute. *)
Lemma C2_dial_failure_ends_process :
  exists s',
    run sample_config [TickerFires; LoopTakesTick]
        (start (mongo_down "no reachable servers")) = Some s'
    /\ proc s' = Crashed "no reachable servers"
    /\ (forall l, step sample_config l s' = None)
    /\ run sample_config [TickerFires; LoopTakesTick; TickerFires; LoopTakesTick]
           (start (mongo_down "no reachable servers")) = None.
Proof.
  eexists. split; [vm_compute; reflexivity|].
  split; [reflexivity|]. split; [|vm_compute; reflexivity].
  intros l. reflexivity.
Qed.

(** ** Reachable states of [main] *)

Lemma run_app (config : Config.t) (ls ls' : list Label) (s : Sched) :
  run config (ls ++ ls') s
  = match run config ls s with
    | Some s1 => run config ls' s1
    | None => None
    end.
Proof.
  revert s. induction ls as [|l ls IH]; intros s; simpl; [reflexivity|].
  destruct (step config l s); [apply IH | reflexivity].
Qed.

(** The tick branch only appends to the log. *)
Lemma tickCase_extends (config : Config.t) (w : World) :
  exists l, fst (tickCase config w) = extend w l.
Proof.
  destruct (serverStatus_retrieved (Config.Mongo config) w)
    as (l1 & r & H & _).
  destruct r as [st | v].
  - destruct (pushStats_published (Config.Statsd config) st (extend w l1))
      as (l2 & err & Hp & _).
    destruct (tickCase_returns config w _ _ H) as (_ & Herr & Hok).
    destruct err as [e|].
    + destruct (Herr e) as (a & E); [now rewrite Hp|].
      rewrite E, Hp. cbn [fst]. rewrite !extend_extend. now eexists.
    + rewrite Hok by now rewrite Hp. rewrite Hp. cbn [fst].
      rewrite extend_extend. now eexists.
  - rewrite (tickCase_panics config w _ _ H). now eexists.
Qed.

(** No move of the process takes anything out of the log. *)
Lemma step_log (config : Config.t) (l : Label) (s s' : Sched) :
  step config l s = Some s' ->
  exists l', log (world s') = log (world s) ++ l'.
Proof.
  unfold step. destruct (is_running (proc s)); [|discriminate].
  destruct l.
  - destruct (ticker_running s); [|discriminate].
    intros E. injection E as <-. exists []. cbn [world]. now rewrite app_nil_r.
  - destruct (main_pc s); try discriminate.
    intros E. injection E as <-. exists []. cbn [world]. now rewrite app_nil_r.
  - unfold mainStep. destruct (main_pc s); try discriminate;
      intros E; injection E as <-; cbn [world].
    + eexists. reflexivity.
    + exists []. now rewrite app_nil_r.
    + exists []. now rewrite app_nil_r.
  - unfold loopTick. destruct (loop_pc s); [|discriminate].
    destruct (tick_pending s); [|discriminate].
    intros E. injection E as <-. cbn [world].
    destruct (tickCase_extends config (world s)) as (l' & ->). now exists l'.
  - unfold loopQuit. destruct (loop_pc s); [|discriminate].
    destruct (quit_closed s); [|discriminate].
    intros E. injection E as <-. cbn [world].
    eexists. reflexivity.
Qed.

Lemma announced_step (config : Config.t) (ls : list Label) (l : Label)
      (s s' : Sched) :
  step config l s = Some s' ->
  announced ls s -> announced (ls ++ [l]) s'.
Proof.
  intros Hstep (sig & Hin & a & Hlog).
  destruct (step_log config l s s' Hstep) as (l' & E).
  exists sig. split; [apply in_or_app; now left|].
  exists a. rewrite E. apply in_or_app. now left.
Qed.

Lemma start_inv (e : Env) : reachable_inv [] (start e).
Proof.
  unfold reachable_inv, start. cbn.
  repeat split; try discriminate.
  intros [H | [H | H]]; discriminate H.
Qed.

Lemma step_inv (config : Config.t) (ls : list Label) (l : Label)
      (s s' : Sched) :
  reachable_inv ls s ->
  step config l s = Some s' ->
  reachable_inv (ls ++ [l]) s'.
Proof.
  intros I Hstep.
  pose proof (announced_step config ls l s s' Hstep) as Hann.
  assert (Hin : forall x, In x ls -> In x (ls ++ [l]))
    by (intros x Hx; apply in_or_app; now left).
  assert (Hlast : In l (ls ++ [l])) by (apply in_or_app; right; now left).
  destruct s as [w mp lp qc tp tr p].
  unfold reachable_inv in *. cbn in I.
  unfold step, mainStep, loopTick, loopQuit in Hstep. cbn in Hstep.
  destruct p; try discriminate Hstep.
  destruct l; cbn in Hstep;
    repeat match type of Hstep with
           | context [match ?x with _ => _ end] => destruct x eqn:?
           | context [if ?x then _ else _] => destruct x eqn:?
           end; try discriminate Hstep;
    injection Hstep as <-; cbn; cbn in Hann.
  all: intuition (try congruence; eauto).
  all: try (exfalso; intuition congruence).
  all: try (eexists; apply in_or_app; right; left; reflexivity).
  match goal with
  | |- announced _ _ =>
    exists sig; split;
      [ apply Hin; auto
      | eexists; apply in_or_app; right; left; reflexivity ]
  end.
Qed.

Lemma run_inv (config : Config.t) (e : Env) (ls : list Label) (s : Sched) :
  run config ls (start e) = Some s -> reachable_inv ls s.
Proof.
  revert s. induction ls as [|l ls IH] using rev_ind; intros s.
  - simpl. intros E. injection E as <-. apply start_inv.
  - rewrite run_app.
    destruct (run config ls (start e)) as [s1|]; [|discriminate].
    simpl. destruct (step config l s1) as [s2|] eqn:Hstep; [|discriminate].
    intros E. injection E as <-.
    apply (step_inv config ls l s1 s2); [now apply IH | exact Hstep].
Qed.

(** Once the loop goroutine has returned, the ticker stays stopped and
    no schedule contains a tick or a cycle any more. *)
Lemma loop_returned_stays (config : Config.t) (ls : list Label) (s s' : Sched) :
  loop_pc s = LoopReturned ->
  ticker_running s = false ->
  run config ls s = Some s' ->
  ~ In LoopTakesTick ls /\ ~ In TickerFires ls
  /\ loop_pc s' = LoopReturned /\ ticker_running s' = false.
Proof.
  revert s. induction ls as [|l ls IH]; intros s Hl Ht; simpl.
  - intros E. injection E as <-. tauto.
  - destruct (step config l s) as [s1|] eqn:Hstep; [|discriminate].
    intros Hrun.
    assert (Hs1 : l <> LoopTakesTick /\ l <> TickerFires
                  /\ loop_pc s1 = LoopReturned /\ ticker_running s1 = false).
    { revert Hstep. unfold step, mainStep, loopTick, loopQuit.
      destruct (is_running (proc s)); [|discriminate].
      rewrite Hl, Ht.
      destruct l; try discriminate;
        repeat match goal with
               | |- context [match ?x with _ => _ end] => destruct x
               end; try discriminate;
        intros E; injection E as <-; cbn; repeat split; auto; discriminate. }
    destruct Hs1 as (N1 & N2 & Hl1 & Ht1).
    destruct (IH s1 Hl1 Ht1 Hrun) as (M1 & M2 & R1 & R2).
    repeat split; auto; intros [E | Hin]; auto.
Qed.

(** ** C6: shutdown on a signal *)

(** C6 (as amended).  In every state the process reaches:
    each of SIGINT, SIGTERM and SIGQUIT is received by [main] in the
    same way; having received one, [main] prints "Received" and the name
    of the signal, then closes [quit], then returns, which ends the
    process; [quit] is closed and the process has exited only after a
    signal arrived and its line was printed; with [quit] closed the loop
    can take its quit branch, which stops the ticker; and once it has,
    the ticker stays stopped and no tick and no cycle follows. *)
Theorem C6_shutdown (config : Config.t) (e : Env) (ls : list Label)
        (s : Sched) :
  run config ls (start e) = Some s ->
  (forall sig,
      proc s = Running -> main_pc s = AwaitSignal ->
      step config (SignalArrives sig) s
      = Some {| world := world s;
                main_pc := GotSignal sig;
                loop_pc := loop_pc s;
                quit_closed := quit_closed s;
                tick_pending := tick_pending s;
                ticker_running := ticker_running s;
                proc := proc s |})
  /\ (forall sig,
         proc s = Running -> main_pc s = GotSignal sig ->
         exists s1 s2 s3 a,
           step config MainSteps s = Some s1
           /\ world s1 = extend (world s) [(CPrintln (receivedLine sig), a)]
           /\ quit_closed s1 = quit_closed s
           /\ step config MainSteps s1 = Some s2
           /\ world s2 = world s1 /\ quit_closed s2 = true
           /\ step config MainSteps s2 = Some s3
           /\ proc s3 = Exited)
  /\ (quit_closed s = true \/ proc s = Exited -> announced ls s)
  /\ (quit_closed s = true -> loop_pc s = Selecting -> proc s = Running ->
      exists s1 a,
        step config LoopTakesQuit s = Some s1
        /\ loop_pc s1 = LoopReturned /\ ticker_running s1 = false
        /\ world s1 = extend (world s) [(CTickerStop, a)])
  /\ (loop_pc s = LoopReturned ->
      ticker_running s = false
      /\ (exists a, In (CTickerStop, a) (log (world s)))
      /\ forall ls' s',
          run config ls' s = Some s' ->
          ~ In LoopTakesTick ls' /\ ~ In TickerFires ls'
          /\ loop_pc s' = LoopReturned /\ ticker_running s' = false).
Proof.
  intros Hrun.
  destruct (run_inv config e ls s Hrun) as (I1 & I2 & I3 & I4 & I5).
  split; [|split; [|split; [|split]]].
  - intros sig Hp Hm. unfold step. now rewrite Hp, Hm.
  - intros sig Hp Hm. clear I1 I2 I3 I4 I5 Hrun.
    destruct s as [w mp lp qc tp tr p]. cbn in Hp, Hm. subst mp p.
    unfold step, mainStep. cbn.
    eexists _, _, _, _. split; [reflexivity|]. cbn.
    split; [reflexivity|]. split; [reflexivity|].
    split; [reflexivity|]. cbn. repeat split; reflexivity.
  - intros [Hq | Hx]; apply I4.
    + destruct (I2 Hq); auto.
    + right. right. now apply I3.
  - intros Hq Hl Hp. unfold step, loopQuit. rewrite Hp, Hl, Hq.
    cbn [is_running]. eexists _, _. split; [reflexivity|].
    cbn [loop_pc ticker_running world]. rewrite perform_eq.
    repeat split; reflexivity.
  - intros Hl. destruct (I1 Hl) as (Ht & _ & Hstop).
    split; [exact Ht|]. split; [exact Hstop|].
    intros ls' s' Hrun'. now apply (loop_returned_stays config ls' s s').
Qed.

(** SIGTERM arrives; [main] announces it and closes [quit]; the loop
    takes its quit branch. *)
Lemma C6_shutdown_witness :
  exists s,
    run sample_config
        [TickerFires; LoopTakesTick; SignalArrives SIGTERM; MainSteps;
         MainSteps; LoopTakesQuit]
        (start calm) = Some s
    /\ announced
         [TickerFires; LoopTakesTick; SignalArrives SIGTERM; MainSteps;
          MainSteps; LoopTakesQuit] s
    /\ ticker_running s = false
    /\ forall ls' s',
        run sample_config ls' s = Some s' -> ~ In LoopTakesTick ls'.
Proof.
  eexists. split; [vm_compute; reflexivity|].
  match goal with
  | |- announced ?ls ?s /\ _ =>
    destruct (C6_shutdown sample_config calm ls s ltac:(vm_compute; reflexivity))
      as (_ & _ & Hann & _ & Hret)
  end.
  split; [apply Hann; left; reflexivity|].
  destruct (Hret eq_refl) as (Ht & _ & Hno).
  split; [exact Ht|]. intros ls' s' Hrun. now apply (Hno ls' s').
Defined.

(** C6 as it is worded: after the signal has been received a cycle can
    still start, also after the line is printed and [quit] is closed
    (the select takes any ready branch); and the process can exit
    without the ticker ever being stopped. *)
Lemma C6_cycle_after_signal :
  (exists s,
      run sample_config [SignalArrives SIGTERM; TickerFires; LoopTakesTick]
          (start calm) = Some s
      /\ map fst (firstn 2 (log (world s)))
         = [dialCall mongo_open; CSetMode Monotonic true])
  /\ (exists s,
         run sample_config
             [SignalArrives SIGTERM; MainSteps; MainSteps; TickerFires;
              LoopTakesTick]
             (start calm) = Some s
         /\ quit_closed s = true
         /\ map fst (firstn 3 (log (world s)))
            = [CPrintln "Received terminated"; dialCall mongo_open;
               CSetMode Monotonic true])
  /\ (exists s,
         run sample_config
             [SignalArrives SIGTERM; MainSteps; MainSteps; MainSteps]
             (start calm) = Some s
         /\ proc s = Exited
         /\ ticker_running s = true
         /\ map fst (log (world s)) = [CPrintln "Received terminated"]).
Proof.
  split; [|split]; eexists; (split; [vm_compute; reflexivity|]);
    repeat split; reflexivity.
Qed.

(** * More of the code *)

(** ** [serverStatus]: the session *)

Lemma loggedIn_cases (mongo_config : Mongo.t) :
  loggedIn mongo_config = []
  \/ loggedIn mongo_config = [(loginCall mongo_config, None)].
Proof.
  unfold loggedIn. destruct (0 <? len (Mongo.User mongo_config)); auto.
Qed.

(** X1.  [serverStatus] closes the session it dialled exactly once, as
    its last call, whether it returns or panics on a failed login or
    query; when the dial itself fails there is no session, nothing is
    closed, the dial is the only call and its error is the panic. *)
Theorem X1_session_closed_once (mongo_config : Mongo.t) (w : World) :
  (answer (env w) (log w) (dialCall mongo_config) = None ->
   countCalls isSessionClose (emitted (serverStatus mongo_config) w) = 1%nat
   /\ exists pre a,
       emitted (serverStatus mongo_config) w = pre ++ [(CSessionClose, a)])
  /\ (forall e,
         answer (env w) (log w) (dialCall mongo_config) = Some e ->
         emitted (serverStatus mongo_config) w
         = [(dialCall mongo_config, Some e)]
         /\ snd (serverStatus mongo_config w) = Panics e).
Proof.
  destruct (serverStatus_retrieved mongo_config w)
    as (l & r & H & R & rest & Hl).
  rewrite (emitted_extend _ H), H. cbn [snd].
  split.
  - intros Hd. rewrite Hd in Hl.
    destruct R as [e | e a Hpos | e m a | m a]; try discriminate Hl;
      destruct (loggedIn_cases mongo_config) as [Hlog | Hlog];
      rewrite ?Hlog; cbn [app]; (split; [reflexivity|]);
      first [ now eexists [_; _], _
            | now eexists [_; _; _], _
            | now eexists [_; _; _; _], _ ].
  - intros e Hd. rewrite Hd in Hl.
    remember (panicOf r) as pr eqn:Hpr.
    destruct R as [e0 | e0 a Hpos | e0 m a | m a]; try discriminate Hl.
    injection Hl as ->. destruct r as [st | v]; [discriminate Hpr|].
    injection Hpr as ->. split; reflexivity.
Qed.

Lemma X1_session_closed_once_witness :
  answer (env (blank calm)) (log (blank calm)) (dialCall mongo_auth) = None
  /\ countCalls isSessionClose (emitted (serverStatus mongo_auth) (blank calm))
     = 1%nat.
Proof.
  split; [reflexivity|].
  exact (proj1 (proj1 (X1_session_closed_once mongo_auth (blank calm))
                      eq_refl)).
Defined.

(** X2.  One retrieval never retries: [serverStatus] dials exactly
    once, with the configured addresses, [Direct] false and a timeout of
    30 seconds; it logs in at most once and queries at most once; and a
    query is always the command "serverStatus", issued right after the
    session was switched to monotonic mode. *)
Theorem X2_retrieval_without_retry (mongo_config : Mongo.t) (w : World) :
  countCalls isDial (emitted (serverStatus mongo_config) w) = 1%nat
  /\ (countCalls isLogin (emitted (serverStatus mongo_config) w) <= 1)%nat
  /\ (countCalls isRun (emitted (serverStatus mongo_config) w) <= 1)%nat
  /\ (forall info a,
         In (CDialWithInfo info, a) (emitted (serverStatus mongo_config) w) ->
         Addrs info = Mongo.Addresses mongo_config
         /\ Direct info = false /\ Timeout info = 30)
  /\ (forall cmd a,
         In (CRun cmd, a) (emitted (serverStatus mongo_config) w) ->
         cmd = "serverStatus"
         /\ exists pre m post,
             emitted (serverStatus mongo_config) w
             = pre ++ (CSetMode Monotonic true, m) :: (CRun cmd, a) :: post).
Proof.
  destruct (serverStatus_retrieved mongo_config w) as (l & r & H & R & _).
  rewrite (emitted_extend _ H).
  destruct R as [e | e a Hpos | e m a | m a];
    destruct (loggedIn_cases mongo_config) as [Hlog | Hlog];
    rewrite ?Hlog; cbn [app];
    (split; [reflexivity|]);
    (split; [cbn; lia|]); (split; [cbn; lia|]);
    (split;
     [ intros info a' Hin; cbn [In] in Hin;
       repeat (destruct Hin as [E | Hin]; [try discriminate E|]);
       try contradiction;
       unfold dialCall in E; injection E as <- _; auto
     | intros cmd a' Hin; cbn [In] in Hin;
       repeat (destruct Hin as [E | Hin]; [try discriminate E|]);
       try contradiction;
       injection E as <- <-;
       (split; [reflexivity|]);
       first [ now eexists [_], _, _
             | now eexists [_; _], _, _ ] ]).
Qed.

(** When [serverStatus] returns, its log is the full successful shape
    and its value the document decoded at the query. *)
Lemma serverStatus_returned (mongo_config : Mongo.t) (w w1 : World)
      (status : ServerStatus.t) :
  serverStatus mongo_config w = (w1, Returns status) ->
  exists m a,
    w1 = extend w (((dialCall mongo_config, None)
                    :: loggedIn mongo_config
                    ++ [(CSetMode Monotonic true, m)])
                   ++ [(CRun "serverStatus", None); (CSessionClose, a)])
    /\ status
       = document (env w)
           (log w ++ (dialCall mongo_config, None)
                  :: loggedIn mongo_config
                  ++ [(CSetMode Monotonic true, m)]).
Proof.
  unfold serverStatus, mgo.DialWithInfo, defer, mgo.Close, mgo.Login,
    mgo.SetMode, mgo.Run, loggedIn.
  fold (dialCall mongo_config) (loginCall mongo_config).
  unfold bind, panic, ret.
  repeat progress
    (cbv beta iota; cbn [fst snd]; rewrite ?perform_eq;
     try match goal with
         | |- context [match answer ?e ?h ?c with _ => _ end] =>
           destruct (answer e h c) eqn:?
         | |- context [if 0 <? ?x then _ else _] =>
           destruct (0 <? x) eqn:?
         end).
  all: rewrite ?extend_extend; cbn [app fst snd env log extend];
    intros E; try discriminate E; injection E as <- <-;
    eexists _, _; split; reflexivity.
Qed.

(** X3.  [serverStatus] returns a snapshot only when the dial, the
    login (if any) and the query all succeeded, and what it returns is
    the document the one status query decoded, untouched. *)
Theorem X3_returns_queried_document (mongo_config : Mongo.t) (w w1 : World)
        (status : ServerStatus.t) :
  serverStatus mongo_config w = (w1, Returns status) ->
  (forall c e,
      isRetrieval c = true ->
      ~ In (c, Some e) (emitted (serverStatus mongo_config) w))
  /\ exists pre post,
      emitted (serverStatus mongo_config) w
      = pre ++ (CRun "serverStatus", None) :: post
      /\ countCalls isRun pre = 0%nat
      /\ status = document (env w) (log w ++ pre).
Proof.
  intros H. split.
  - intros c e Hc Hin.
    assert (Hp : snd (serverStatus mongo_config w) = Panics e)
      by (apply serverStatus_panics_iff; now exists c).
    rewrite H in Hp. discriminate Hp.
  - destruct (serverStatus_returned mongo_config w w1 status H)
      as (m & a & Hw & Hst).
    rewrite Hw in H. rewrite (emitted_extend _ H).
    eexists _, _. split; [reflexivity|]. split; [|exact Hst].
    destruct (loggedIn_cases mongo_config) as [-> | ->]; reflexivity.
Qed.

Lemma X3_returns_queried_document_witness :
  serverStatus mongo_auth (blank calm)
  = (fst (serverStatus mongo_auth (blank calm)), Returns db1)
  /\ forall e,
      ~ In (loginCall mongo_auth, Some e)
           (emitted (serverStatus mongo_auth) (blank calm)).
Proof.
  assert (H : serverStatus mongo_auth (blank calm)
              = (fst (serverStatus mongo_auth (blank calm)), Returns db1))
    by (vm_compute; reflexivity).
  split; [exact H|]. intros e.
  exact (proj1 (X3_returns_queried_document mongo_auth (blank calm) _ db1 H)
               (loginCall mongo_auth) e eq_refl).
Defined.

(** ** [pushStats]: the client, the result, the names *)

Lemma countCalls_app (p : Call -> bool) (l l' : list Entry) :
  countCalls p (l ++ l') = (countCalls p l + countCalls p l')%nat.
Proof. unfold countCalls. now rewrite filter_app, length_app. Qed.

Lemma countCalls_sent (p : Call -> bool) (client : Client)
      (gs : list (string * Z)) :
  (forall stat value, p (CGauge client stat value 1.0) = false) ->
  countCalls p (map (sent client) gs) = 0%nat.
Proof.
  intros Hp. unfold countCalls.
  induction gs as [|g gs IH]; [reflexivity|].
  cbn [map filter sent fst]. now rewrite Hp.
Qed.

(** X4.  [pushStats] closes the client it constructed exactly once, as
    its last call, also when a gauge was refused; without a client
    nothing is closed. *)
Theorem X4_client_closed_once (statsd_config : Statsd.t)
        (status : ServerStatus.t) (w : World) :
  (answer (env w) (log w)
     (CNewClient (hostPort statsd_config) (namespace statsd_config status))
   = None ->
   countCalls isClientClose (emitted (pushStats statsd_config status) w)
   = 1%nat
   /\ exists pre a,
       emitted (pushStats statsd_config status) w
       = pre ++ [(CClientClose (clientOf statsd_config status), a)])
  /\ ((exists e,
          answer (env w) (log w)
            (CNewClient (hostPort statsd_config)
                        (namespace statsd_config status))
          = Some e) ->
      countCalls isClientClose (emitted (pushStats statsd_config status) w)
      = 0%nat).
Proof.
  destruct (pushStats_published statsd_config status w)
    as (l & err & H & P & rest & Hl).
  rewrite (emitted_extend _ H).
  assert (Hs : forall gs,
             countCalls isClientClose
               (map (sent (clientOf statsd_config status)) gs) = 0%nat)
    by (intros gs; now apply countCalls_sent).
  split.
  - intros Ha. rewrite Ha in Hl.
    destruct P as [e | a | pre post g e a Hgs]; try discriminate Hl.
    + split.
      * change (countCalls isClientClose
                  ([(CNewClient (hostPort statsd_config)
                                (namespace statsd_config status), None)]
                   ++ map (sent (clientOf statsd_config status))
                          (statsGauges status)
                   ++ [(CClientClose (clientOf statsd_config status), a)])
                = 1%nat).
        rewrite !countCalls_app, Hs. reflexivity.
      * eexists (_ :: _), a. reflexivity.
    + split.
      * change (countCalls isClientClose
                  ([(CNewClient (hostPort statsd_config)
                                (namespace statsd_config status), None)]
                   ++ map (sent (clientOf statsd_config status)) pre
                   ++ [(CGauge (clientOf statsd_config status)
                               (fst g) (snd g) 1.0, Some e);
                       (CClientClose (clientOf statsd_config status), a)])
                = 1%nat).
        rewrite !countCalls_app, Hs. reflexivity.
      * exists ((CNewClient (hostPort statsd_config)
                            (namespace statsd_config status), None)
                :: map (sent (clientOf statsd_config status)) pre
                ++ [(CGauge (clientOf statsd_config status)
                            (fst g) (snd g) 1.0, Some e)]), a.
        cbn [app]. now rewrite <- app_assoc.
  - intros (e & Ha). rewrite Ha in Hl.
    destruct P as [e0 | a | pre post g e0 a Hgs]; try discriminate Hl.
    reflexivity.
Qed.

Lemma X4_client_closed_once_witness :
  answer (env third_refused_retrieved) (log third_refused_retrieved)
    (CNewClient (hostPort prod_shardA) (namespace prod_shardA db1)) = None
  /\ countCalls isClientClose
       (emitted (pushStats prod_shardA db1) third_refused_retrieved) = 1%nat.
Proof.
  split; [reflexivity|].
  exact (proj1 (proj1 (X4_client_closed_once prod_shardA db1
                         third_refused_retrieved) eq_refl)).
Defined.

Lemma firstError_repeat_None (n : nat) (l : list error) :
  firstError (repeat None n ++ l) = firstError l.
Proof. induction n as [|n IH]; simpl; auto. Qed.

(** X5.  What [pushStats] returns is the first error the sink gave, to
    [NewClient] or to a gauge, and [nil] when it gave none; the error of
    the deferred [Close] never shows in the result. *)
Theorem X5_returns_first_sink_error (statsd_config : Statsd.t)
        (status : ServerStatus.t) (w : World) :
  snd (pushStats statsd_config status w)
  = Returns
      (firstError (sinkAnswers (emitted (pushStats statsd_config status) w))).
Proof.
  destruct (pushStats_published statsd_config status w)
    as (l & err & H & P & _).
  rewrite (emitted_extend _ H), H. cbn [snd]. f_equal.
  destruct P as [e | a | pre post g e a Hgs]; cbn [sinkAnswers firstError].
  - reflexivity.
  - rewrite sinkAnswers_app, sinkAnswers_sent, firstError_repeat_None.
    reflexivity.
  - rewrite sinkAnswers_app, sinkAnswers_sent, firstError_repeat_None.
    reflexivity.
Qed.

Lemma NoDup_firstn {A} (k : nat) (l : list A) : NoDup l -> NoDup (firstn k l).
Proof.
  intros H. rewrite <- (firstn_skipn k l) in H.
  now apply NoDup_app_remove_r in H.
Qed.

(** X6.  In every publish, complete or cut short, each metric name is
    attempted at most once, at most 23 gauges are attempted, every name
    is one of the table, and every gauge goes at rate 1.0 to the client
    made for "host:port" of the configuration. *)
Theorem X6_any_publish_within_table (statsd_config : Statsd.t)
        (status : ServerStatus.t) (w : World) :
  NoDup (map fst (gaugesOf (emitted (pushStats statsd_config status) w)))
  /\ (List.length (gaugesOf (emitted (pushStats statsd_config status) w))
      <= 23)%nat
  /\ (forall stat,
         In stat (map fst (gaugesOf (emitted (pushStats statsd_config status)
                                             w))) ->
         In stat (map metric table_4_3))
  /\ (forall c stat value rate a,
         In (CGauge c stat value rate, a)
            (emitted (pushStats statsd_config status) w) ->
         rate = 1.0%Q
         /\ client_addr c
            = (Statsd.Host statsd_config ++ ":"
               ++ fmt.decimal (Statsd.Port statsd_config))%string).
Proof.
  destruct (pushStats_published statsd_config status w)
    as (l & err & H & P & _).
  rewrite (emitted_extend _ H).
  destruct (published_prefix P) as (k & Hk). rewrite Hk.
  assert (Hnames : map fst (statsGauges status) = map metric table_4_3)
    by reflexivity.
  split; [|split; [|split]].
  - rewrite <- firstn_map. apply NoDup_firstn. rewrite Hnames.
    apply table_names_NoDup.
  - rewrite length_firstn. change (List.length (statsGauges status)) with 23%nat.
    lia.
  - intros stat Hin. rewrite <- firstn_map, Hnames in Hin.
    rewrite <- (firstn_skipn k (map metric table_4_3)).
    apply in_or_app. now left.
  - intros c stat value rate a Hin.
    destruct (published_gauge P _ _ _ _ _ Hin) as (-> & -> & _).
    split; reflexivity.
Qed.

(** X7.  [pushStats] reads the host and the five published groups of
    the snapshot and nothing else: two snapshots that agree on those
    (whatever their version, process, pid, uptimes, local time and
    replica-set counters) are published in exactly the same way. *)
Theorem X7_unpublished_fields_ignored (statsd_config : Statsd.t)
        (status status' : ServerStatus.t) (w : World) :
  ServerStatus.Host status = ServerStatus.Host status' ->
  ServerStatus.Connections status = ServerStatus.Connections status' ->
  ServerStatus.Opcounters status = ServerStatus.Opcounters status' ->
  ServerStatus.Mem status = ServerStatus.Mem status' ->
  ServerStatus.GlobalLocks status = ServerStatus.GlobalLocks status' ->
  ServerStatus.ExtraInfo status = ServerStatus.ExtraInfo status' ->
  pushStats statsd_config status w = pushStats statsd_config status' w.
Proof.
  intros Hh Hc Ho Hm Hg He. unfold pushStats.
  now rewrite Hh, Hc, Ho, Hm, Hg, He.
Qed.

Lemma X7_unpublished_fields_ignored_witness :
  ServerStatus.OpcountersReplicaSet db1
  <> ServerStatus.OpcountersReplicaSet db1_replica
  /\ pushStats prod_shardA db1 (blank calm)
     = pushStats prod_shardA db1_replica (blank calm).
Proof.
  split; [discriminate|].
  exact (X7_unpublished_fields_ignored prod_shardA db1 db1_replica
           (blank calm) eq_refl eq_refl eq_refl eq_refl eq_refl eq_refl).
Defined.

(** X8.  The prefix does not tell a cluster from a dot in the
    environment: with the same statsd host and port, environment
    "a.b" without cluster and environment "a" with cluster "b" are
    published under the same namespace, call for call. *)
Theorem X8_cluster_or_dotted_env (host : string) (port : Z)
        (environment cluster : string) (status : ServerStatus.t) (w : World) :
  cluster <> EmptyString ->
  pushStats (Statsd.Build host port
               (environment ++ "." ++ cluster)%string EmptyString)
            status w
  = pushStats (Statsd.Build host port environment cluster) status w.
Proof.
  intros Hc. apply len_pos in Hc. unfold pushStats.
  cbn [Statsd.Env Statsd.Cluster Statsd.Host Statsd.Port].
  rewrite Hc. reflexivity.
Qed.

Lemma X8_cluster_or_dotted_env_witness :
  "shardA" <> EmptyString
  /\ pushStats (Statsd.Build "127.0.0.1" 8125 "prod.shardA" EmptyString)
               db1 (blank calm)
     = pushStats prod_shardA db1 (blank calm).
Proof.
  assert (Hc : "shardA" <> EmptyString) by discriminate.
  split; [exact Hc|].
  exact (X8_cluster_or_dotted_env "127.0.0.1" 8125 "prod" "shardA" db1
           (blank calm) Hc).
Defined.

(** ** The group functions the cycle is made of *)

(** A walk through a gauge list: nothing but gauges on the given client
    is logged; the gauges attempted are the first ones of the list, at
    least one unless the list is empty; a walk that returns [nil]
    attempted the whole list; and every answer but the last one was
    [nil], the last one being what the walk returns. *)
Lemma sendAll_attempts (client : Client) (gs : list (string * Z)) (w : World) :
  exists k err,
    snd (sendAll client gs w) = Returns err
    /\ gaugesOf (emitted (sendAll client gs) w) = firstn k gs
    /\ (k <= List.length gs)%nat
    /\ (gs <> [] -> (1 <= k)%nat)
    /\ (err = None -> k = List.length gs)
    /\ (forall c a,
           In (c, a) (emitted (sendAll client gs) w) ->
           exists stat value, c = CGauge client stat value 1.0)
    /\ sinkAnswers (emitted (sendAll client gs) w)
       = repeat None (k - 1) ++ match gs with
                                | [] => []
                                | _ :: _ => [err]
                                end.
Proof.
  assert (Hentries : forall l c a,
             In (c, a) (map (sent client) l) ->
             exists stat value, c = CGauge client stat value 1.0).
  { intros l c a Hin. apply in_map_iff in Hin as (g & E & _).
    unfold sent in E. injection E as <- _. now eexists _, _. }
  destruct (sendAll_runs client gs w)
    as [H | (pre & g & post & e & Hgs & H)].
  - exists (List.length gs), None. rewrite (emitted_extend _ H), H.
    split; [reflexivity|]. rewrite gaugesOf_sent, firstn_all.
    split; [reflexivity|]. split; [lia|]. split.
    + destruct gs; [congruence | simpl; lia].
    + split; [tauto|]. split; [apply Hentries|].
      rewrite sinkAnswers_sent. destruct gs as [|g gs]; [reflexivity|].
      cbn [List.length]. rewrite Nat.sub_succ, Nat.sub_0_r.
      change [@None string] with (repeat (@None string) 1).
      rewrite <- repeat_app, Nat.add_1_r. reflexivity.
  - exists (S (List.length pre)), (Some e). rewrite (emitted_extend _ H), H.
    split; [reflexivity|]. rewrite gaugesOf_app, gaugesOf_sent.
    cbn [gaugesOf]. subst gs. rewrite length_app. cbn [List.length].
    split.
    + replace (pre ++ g :: post) with ((pre ++ [g]) ++ post)
        by (now rewrite <- app_assoc).
      replace (S (List.length pre)) with (List.length (pre ++ [g]) + 0)%nat
        by (rewrite length_app; simpl; lia).
      rewrite firstn_app_2. simpl. rewrite app_nil_r. now destruct g.
    + split; [lia|]. split; [lia|]. split.
      * discriminate.
      * split.
        -- intros c a Hin. apply in_app_or in Hin as [Hin | [E | []]].
           ++ now apply (Hentries pre c a).
           ++ injection E as <- _. now eexists _, _.
        -- rewrite sinkAnswers_app, sinkAnswers_sent. cbn [sinkAnswers].
           rewrite Nat.sub_succ, Nat.sub_0_r.
           destruct pre; reflexivity.
Qed.

(** X9.  [pushMem] attempts the four memory gauges in the order
    resident, virtual, mapped, mapped_with_journal, with the fields as
    they are; it stops at the first one the sink refuses and returns
    that error, returns [nil] only after all four, and does nothing else
    (it neither closes the client nor panics). *)
Theorem X9_pushMem_walk (client : Client) (mem : Mem.t) (w : World) :
  exists k err,
    snd (pushMem client mem w) = Returns err
    /\ (1 <= k <= 4)%nat
    /\ gaugesOf (emitted (pushMem client mem) w)
       = firstn k [ ("mem.resident", Mem.Resident mem);
                    ("mem.virtual", Mem.Virtual mem);
                    ("mem.mapped", Mem.Mapped mem);
                    ("mem.mapped_with_journal", Mem.MappedWithJournal mem) ]
    /\ (err = None -> k = 4%nat)
    /\ sinkAnswers (emitted (pushMem client mem) w)
       = repeat None (k - 1) ++ [err]
    /\ (forall c a,
           In (c, a) (emitted (pushMem client mem) w) ->
           exists stat value, c = CGauge client stat value 1.0).
Proof.
  rewrite pushMem_sendAll.
  destruct (sendAll_attempts client (memGauges mem) w)
    as (k & err & Hr & Hg & Hle & Hpos & Hnil & Hc & Ha).
  exists k, err. split; [exact Hr|]. split.
  - split; [apply Hpos; discriminate | exact Hle].
  - split; [exact Hg|]. split; [exact Hnil|]. split; [exact Ha | exact Hc].
Qed.

(** X10.  [pushExtraInfo] attempts the page-fault gauge and then the
    heap-usage gauge, with the fields as they are; a refused page-fault
    gauge is returned at once and the heap usage is not sent. *)
Theorem X10_pushExtraInfo_walk (client : Client) (info : ExtraInfo.t)
        (w : World) :
  exists k err,
    snd (pushExtraInfo client info w) = Returns err
    /\ (1 <= k <= 2)%nat
    /\ gaugesOf (emitted (pushExtraInfo client info) w)
       = firstn k [ ("extra.page_faults", ExtraInfo.PageFaults info);
                    ("extra.heap_usage", ExtraInfo.HeapUsageInBytes info) ]
    /\ (err = None -> k = 2%nat)
    /\ sinkAnswers (emitted (pushExtraInfo client info) w)
       = repeat None (k - 1) ++ [err]
    /\ (forall c a,
           In (c, a) (emitted (pushExtraInfo client info) w) ->
           exists stat value, c = CGauge client stat value 1.0).
Proof.
  rewrite pushExtraInfo_sendAll.
  destruct (sendAll_attempts client (extraInfoGauges info) w)
    as (k & err & Hr & Hg & Hle & Hpos & Hnil & Hc & Ha).
  exists k, err. split; [exact Hr|]. split.
  - split; [apply Hpos; discriminate | exact Hle].
  - split; [exact Hg|]. split; [exact Hnil|]. split; [exact Ha | exact Hc].
Qed.

(** ** One cycle: retrieval, then publishing *)

Lemma retrieved_all_mgo (mongo_config : Mongo.t) (l : list Entry) (p : error) :
  Retrieved mongo_config l p ->
  forallb (fun en => isMgo (fst en)) l = true.
Proof.
  intros [e | e a Hpos | e m a | m a];
    destruct (loggedIn_cases mongo_config) as [Hlog | Hlog];
    rewrite ?Hlog; reflexivity.
Qed.

Lemma published_all_sink (statsd_config : Statsd.t) (status : ServerStatus.t)
      (l : list Entry) (err : error) :
  Published statsd_config status l err ->
  forallb (fun en => isSink (fst en)) l = true.
Proof.
  assert (Hs : forall c gs,
             forallb (fun en => isSink (fst en)) (map (sent c) gs) = true)
    by (intros c gs; induction gs; simpl; auto).
  intros [e | a | pre post g e a Hgs]; cbn [forallb fst isSink andb];
    rewrite ?forallb_app, ?Hs; reflexivity.
Qed.

Lemma all_mgo_no_sink (l : list Entry) :
  forallb (fun en => isMgo (fst en)) l = true ->
  countCalls isSink l = 0%nat /\ gaugesOf l = []
  /\ forall line a, ~ In (CPrintln line, a) l.
Proof.
  induction l as [|[c a] l IH]; simpl.
  - intros _. repeat split. intros line a [].
  - intros H. apply andb_true_iff in H as [Hc H].
    destruct (IH H) as (I1 & I2 & I3).
    destruct c; try discriminate Hc; unfold countCalls in *; cbn; 
      (repeat split; auto; intros line a' [E | Hin];
       [discriminate E | now apply (I3 line a')]).
Qed.

(** X11.  A cycle whose retrieval succeeded is the retrieval, then the
    publish, then at most one printed line: every call on the mgo
    session (its close included) comes before the statsd client is
    constructed; a publish that returned [nil] prints nothing, and a
    publish that returned an error is followed by exactly that error,
    printed. *)
Theorem X11_cycle_composes (config : Config.t) (w w1 : World)
        (status : ServerStatus.t) :
  serverStatus (Config.Mongo config) w = (w1, Returns status) ->
  exists tail,
    emitted (tickCase config) w
    = emitted (serverStatus (Config.Mongo config)) w
      ++ emitted (pushStats (Config.Statsd config) status) w1
      ++ tail
    /\ forallb (fun en => isMgo (fst en))
               (emitted (serverStatus (Config.Mongo config)) w) = true
    /\ forallb (fun en => isSink (fst en))
               (emitted (pushStats (Config.Statsd config) status) w1) = true
    /\ (snd (pushStats (Config.Statsd config) status w1) = Returns None ->
        tail = [])
    /\ (forall e,
           snd (pushStats (Config.Statsd config) status w1)
           = Returns (Some e) ->
           exists a, tail = [(CPrintln e, a)]).
Proof.
  intros H.
  destruct (serverStatus_retrieved (Config.Mongo config) w)
    as (l1 & r & H1 & R & _).
  rewrite H in H1. injection H1 as -> <-.
  destruct (pushStats_published (Config.Statsd config) status (extend w l1))
    as (l2 & err & Hp & P & _).
  destruct (tickCase_returns config w _ _ H) as (_ & Herr & Hok).
  rewrite (emitted_extend _ H), (emitted_extend _ Hp).
  pose proof (retrieved_all_mgo _ _ _ R) as Hm.
  pose proof (published_all_sink _ _ _ _ P) as Hs.
  rewrite Hp in *. cbn [snd fst] in *.
  destruct err as [e|].
  - destruct (Herr e eq_refl) as (a & E).
    exists [(CPrintln e, a)]. split.
    + unfold emitted. rewrite E. cbn [log extend].
      rewrite <- !app_assoc. apply skipn_length_app.
    + split; [exact Hm|]. split; [exact Hs|]. split; [discriminate|].
      intros e' E'. injection E' as <-. now exists a.
  - exists []. split.
    + unfold emitted. rewrite (Hok eq_refl). cbn [log extend].
      rewrite app_nil_r, <- app_assoc. apply skipn_length_app.
    + split; [exact Hm|]. split; [exact Hs|]. split; [reflexivity|].
      intros e' E'. discriminate E'.
Qed.

Lemma X11_cycle_composes_witness :
  serverStatus (Config.Mongo sample_config) (blank third_refused)
  = (third_refused_retrieved, Returns db1)
  /\ exists a,
      emitted (tickCase sample_config) (blank third_refused)
      = emitted (serverStatus (Config.Mongo sample_config))
                (blank third_refused)
        ++ emitted (pushStats (Config.Statsd sample_config) db1)
                   third_refused_retrieved
        ++ [(CPrintln "write udp 127.0.0.1:8125: connection refused", a)].
Proof.
  assert (H : serverStatus (Config.Mongo sample_config) (blank third_refused)
              = (third_refused_retrieved, Returns db1))
    by (vm_compute; reflexivity).
  split; [exact H|].
  destruct (X11_cycle_composes sample_config (blank third_refused)
              third_refused_retrieved db1 H)
    as (tail & E & _ & _ & _ & Herr).
  destruct (Herr "write udp 127.0.0.1:8125: connection refused"
                 ltac:(vm_compute; reflexivity)) as (a & ->).
  now exists a.
Defined.

(** X12.  No snapshot, no publish: when the retrieval panics, the cycle
    is the retrieval alone; the statsd client is not constructed, no
    gauge is sent and nothing is printed by the loop. *)
Theorem X12_no_snapshot_no_publish (config : Config.t) (w w1 : World)
        (v : string) :
  serverStatus (Config.Mongo config) w = (w1, Panics v) ->
  emitted (tickCase config) w
  = emitted (serverStatus (Config.Mongo config)) w
  /\ countCalls isSink (emitted (tickCase config) w) = 0%nat
  /\ gaugesOf (emitted (tickCase config) w) = []
  /\ (forall line a, ~ In (CPrintln line, a) (emitted (tickCase config) w)).
Proof.
  intros H.
  assert (E : emitted (tickCase config) w
              = emitted (serverStatus (Config.Mongo config)) w).
  { unfold emitted. now rewrite (tickCase_panics config w _ _ H), H. }
  rewrite E. split; [reflexivity|].
  destruct (serverStatus_retrieved (Config.Mongo config) w)
    as (l1 & r & H1 & R & _).
  rewrite (emitted_extend _ H1).
  exact (all_mgo_no_sink l1 (retrieved_all_mgo _ _ _ R)).
Qed.

Lemma X12_no_snapshot_no_publish_witness :
  serverStatus (Config.Mongo sample_config)
    (blank (mongo_down "no reachable servers"))
  = (fst (serverStatus (Config.Mongo sample_config)
            (blank (mongo_down "no reachable servers"))),
     Panics "no reachable servers")
  /\ gaugesOf (emitted (tickCase sample_config)
                       (blank (mongo_down "no reachable servers"))) = [].
Proof.
  assert (H : serverStatus (Config.Mongo sample_config)
                (blank (mongo_down "no reachable servers"))
              = (fst (serverStatus (Config.Mongo sample_config)
                        (blank (mongo_down "no reachable servers"))),
                 Panics "no reachable servers"))
    by (vm_compute; reflexivity).
  split; [exact H|].
  exact (proj1 (proj2 (proj2 (X12_no_snapshot_no_publish sample_config
                                (blank (mongo_down "no reachable servers"))
                                _ "no reachable servers" H)))).
Defined.

(** ** Whole runs of [main] *)

Lemma countLabels_snoc (p : Label -> bool) (ls : list Label) (l : Label) :
  countLabels p (ls ++ [l])
  = (countLabels p ls + (if p l then 1 else 0))%nat.
Proof.
  unfold countLabels. rewrite filter_app, length_app. cbn [filter].
  now destruct (p l).
Qed.

Lemma countLabels_zero (p : Label -> bool) (ls : list Label) :
  countLabels p ls = 0%nat <-> forall l, In l ls -> p l = false.
Proof.
  unfold countLabels. induction ls as [|x ls IH]; cbn [filter].
  - split; [intros _ l [] | reflexivity].
  - destruct (p x) eqn:Hx; cbn [List.length].
    + split; [discriminate|]. intros H.
      rewrite (H x (or_introl eq_refl)) in Hx. discriminate Hx.
    + rewrite IH. split.
      * intros H l [<- | Hin]; auto.
      * intros H l Hin. apply H. now right.
Qed.

Lemma all_counted_out (q p : Call -> bool) (l : list Entry) :
  (forall c, q c = true -> p c = false) ->
  forallb (fun en => q (fst en)) l = true ->
  countCalls p l = 0%nat.
Proof.
  intros Hqp. unfold countCalls.
  induction l as [|[c a] l IH]; cbn [forallb filter fst]; [reflexivity|].
  intros H. apply andb_true_iff in H as [Hc H].
  rewrite (Hqp c Hc). now apply IH.
Qed.

Lemma retrieved_one_dial (mongo_config : Mongo.t) (l : list Entry)
      (p : error) :
  Retrieved mongo_config l p ->
  countCalls isDial l = 1%nat /\ countCalls isTickerStop l = 0%nat.
Proof.
  intros [e | e a Hpos | e m a | m a];
    destruct (loggedIn_cases mongo_config) as [Hlog | Hlog];
    rewrite ?Hlog; split; reflexivity.
Qed.

(** One cycle dials once and leaves the ticker alone. *)
Lemma tickCase_counts (config : Config.t) (w : World) :
  exists l,
    fst (tickCase config w) = extend w l
    /\ countCalls isDial l = 1%nat
    /\ countCalls isTickerStop l = 0%nat.
Proof.
  destruct (serverStatus_retrieved (Config.Mongo config) w)
    as (l1 & r & H & R & _).
  destruct (retrieved_one_dial _ _ _ R) as (D1 & T1).
  destruct r as [st | v].
  - destruct (pushStats_published (Config.Statsd config) st (extend w l1))
      as (l2 & err & Hp & P & _).
    pose proof (published_all_sink _ _ _ _ P) as Hs.
    assert (D2 : countCalls isDial l2 = 0%nat)
      by (apply (all_counted_out isSink); [now intros []|exact Hs]).
    assert (T2 : countCalls isTickerStop l2 = 0%nat)
      by (apply (all_counted_out isSink); [now intros []|exact Hs]).
    destruct (tickCase_returns config w _ _ H) as (_ & Herr & Hok).
    destruct err as [e|].
    + destruct (Herr e) as (a & E); [now rewrite Hp|].
      rewrite E, Hp. cbn [fst]. rewrite !extend_extend.
      eexists. split; [reflexivity|].
      rewrite !countCalls_app, D1, D2, T1, T2. split; reflexivity.
    + rewrite Hok by now rewrite Hp. rewrite Hp. cbn [fst].
      rewrite extend_extend.
      eexists. split; [reflexivity|].
      rewrite !countCalls_app, D1, D2, T1, T2. split; reflexivity.
  - rewrite (tickCase_panics config w _ _ H). cbn [fst].
    exists l1. split; [reflexivity|]. now split.
Qed.

Lemma start_accounting (e : Env) : accounting_inv [] (start e).
Proof. unfold accounting_inv, start. cbn. repeat split; lia. Qed.

Lemma step_accounting (config : Config.t) (ls : list Label) (l : Label)
      (s s' : Sched) :
  accounting_inv ls s ->
  step config l s = Some s' ->
  accounting_inv (ls ++ [l]) s'.
Proof.
  intros (A1 & A2 & A3 & A4) Hstep.
  unfold accounting_inv. rewrite !countLabels_snoc.
  destruct s as [w mp lp qc tp tr p].
  cbn [tick_pending world loop_pc main_pc] in A1, A2, A3, A4.
  unfold step in Hstep. cbn [proc] in Hstep.
  destruct p; try discriminate Hstep. cbn [is_running] in Hstep.
  destruct l.
  - cbn [ticker_running] in Hstep. destruct tr; [|discriminate Hstep].
    injection Hstep as <-.
    cbn [tick_pending world loop_pc main_pc isLoopTakesTick isTickerFires
         isSignalArrives].
    rewrite A2, A3, A4. destruct tp; repeat split; lia.
  - cbn [main_pc] in Hstep. destruct mp; try discriminate Hstep.
    injection Hstep as <-.
    cbn [tick_pending world loop_pc main_pc isLoopTakesTick isTickerFires
         isSignalArrives].
    rewrite A2, A3, A4. repeat split; lia.
  - unfold mainStep in Hstep. cbn [main_pc] in Hstep.
    destruct mp; try discriminate Hstep; injection Hstep as <-;
      cbn [tick_pending world loop_pc main_pc isLoopTakesTick isTickerFires
           isSignalArrives quit_closed ticker_running proc];
      try (rewrite A2, A3, A4; repeat split; lia).
    cbn [fmt.Println perform fst log extend].
    rewrite !countCalls_app, A2, A3, A4.
    cbn. repeat split; lia.
  - unfold loopTick in Hstep. cbn [loop_pc tick_pending] in Hstep.
    destruct lp; [|discriminate Hstep].
    destruct tp; [|discriminate Hstep].
    injection Hstep as <-.
    cbn [tick_pending world loop_pc main_pc isLoopTakesTick isTickerFires
         isSignalArrives].
    destruct (tickCase_counts config w) as (l' & -> & D & T).
    cbn [log extend]. rewrite !countCalls_app, A2, A3, A4, D, T.
    repeat split; lia.
  - unfold loopQuit in Hstep. cbn [loop_pc quit_closed] in Hstep.
    destruct lp; [|discriminate Hstep].
    destruct qc; [|discriminate Hstep].
    injection Hstep as <-.
    cbn [tick_pending world loop_pc main_pc isLoopTakesTick isTickerFires
         isSignalArrives].
    cbn [perform fst log extend].
    rewrite !countCalls_app, A2, A3, A4.
    cbn. repeat split; lia.
Qed.

Lemma run_accounting (config : Config.t) (e : Env) (ls : list Label)
      (s : Sched) :
  run config ls (start e) = Some s -> accounting_inv ls s.
Proof.
  revert s. induction ls as [|l ls IH] using rev_ind; intros s.
  - simpl. intros E. injection E as <-. apply start_accounting.
  - rewrite run_app.
    destruct (run config ls (start e)) as [s1|]; [|discriminate].
    simpl. destruct (step config l s1) as [s2|] eqn:Hstep; [|discriminate].
    intros E. injection E as <-.
    apply (step_accounting config ls l s1 s2); [now apply IH | exact Hstep].
Qed.

(** X13.  [main] receives at most one signal (line 311 runs once): in
    every run the schedule holds at most one arrival, [main] still
    waits exactly when none has arrived, and after one has, no further
    signal can be received. *)
Theorem X13_signal_received_once (config : Config.t) (e : Env)
        (ls : list Label) (s : Sched) :
  run config ls (start e) = Some s ->
  (countLabels isSignalArrives ls <= 1)%nat
  /\ (main_pc s = AwaitSignal <-> forall sig, ~ In (SignalArrives sig) ls)
  /\ (forall sig,
         In (SignalArrives sig) ls ->
         forall sig', step config (SignalArrives sig') s = None).
Proof.
  intros Hrun.
  destruct (run_accounting config e ls s Hrun) as (_ & _ & _ & A4).
  assert (Hzero : countLabels isSignalArrives ls = 0%nat
                  <-> forall sig, ~ In (SignalArrives sig) ls).
  { rewrite countLabels_zero. split.
    - intros H sig Hin. discriminate (H _ Hin).
    - intros H l Hin. destruct l; try reflexivity.
      exfalso. exact (H sig Hin). }
  split; [destruct (main_pc s); lia|]. split.
  - rewrite <- Hzero. rewrite A4. destruct (main_pc s); split;
      try reflexivity; discriminate.
  - intros sig Hin sig'.
    assert (Hne : main_pc s <> AwaitSignal).
    { intros Hm. rewrite Hm in A4. exact (proj1 Hzero A4 sig Hin). }
    unfold step. destruct (is_running (proc s)); [|reflexivity].
    destruct (main_pc s); try reflexivity. now elim Hne.
Qed.

Lemma X13_signal_received_once_witness :
  exists s,
    run sample_config [TickerFires; SignalArrives SIGINT; LoopTakesTick]
        (start calm) = Some s
    /\ forall sig', step sample_config (SignalArrives sig') s = None.
Proof.
  eexists. split; [vm_compute; reflexivity|].
  match goal with
  | |- forall sig', step _ _ ?s = None =>
    destruct (X13_signal_received_once sample_config calm
                [TickerFires; SignalArrives SIGINT; LoopTakesTick] s
                ltac:(vm_compute; reflexivity)) as (_ & _ & H)
  end.
  apply (H SIGINT). right. left. reflexivity.
Defined.

(** * The interleaved process *)

(** ** The call tree run to its end is the code *)

Lemma interp_bind {A B} (p : Steps.Prog A) (f : A -> Steps.Prog B)
      (w : World) :
  interp (Steps.bind p f) w
  = match interp p w with
    | (w1, Returns a) => interp (f a) w1
    | (w1, Panics v) => (w1, Panics v)
    end.
Proof.
  revert w. induction p as [a | v | c k IH | cmd k IH]; intros w; cbn; auto.
Qed.

Lemma interp_andThen {A B} (d : Steps.Prog B) (r : Steps.Prog A) (w : World) :
  interp (Steps.andThen d r) w = interp r (fst (interp d w)).
Proof.
  revert w. induction d as [a | v | c k IH | cmd k IH]; intros w; cbn; auto.
Qed.

Lemma interp_defer {A B} (d : Steps.Prog B) (body : Steps.Prog A) (w : World) :
  interp (Steps.defer d body) w
  = (fst (interp d (fst (interp body w))), snd (interp body w)).
Proof.
  revert w. induction body as [a | v | c k IH | cmd k IH]; intros w; cbn;
    auto; now rewrite interp_andThen.
Qed.

Lemma agrees_ret {A} (a : A) : agrees (Steps.ret a) (ret a).
Proof. intros w. reflexivity. Qed.

Lemma agrees_panic {A} (v : string) : agrees (@Steps.panic A v) (panic v).
Proof. intros w. reflexivity. Qed.

Lemma agrees_perform (c : Call) : agrees (Steps.perform c) (perform c).
Proof. intros w. reflexivity. Qed.

Lemma agrees_Run (cmd : string) : agrees (Steps.mgo.Run cmd) (mgo.Run cmd).
Proof. intros w. reflexivity. Qed.

Lemma agrees_bind {A B} (p : Steps.Prog A) (c : Go A)
      (f : A -> Steps.Prog B) (k : A -> Go B) :
  agrees p c ->
  (forall a, agrees (f a) (k a)) ->
  agrees (Steps.bind p f) (bind c k).
Proof.
  intros Hp Hf w. rewrite interp_bind, Hp. unfold bind.
  destruct (c w) as [w1 [a | v]]; [apply Hf | reflexivity].
Qed.

Lemma agrees_orReturn (p : Steps.Prog error) (c : Go error)
      (p' : Steps.Prog error) (c' : Go error) :
  agrees p c -> agrees p' c' ->
  agrees (Steps.orReturn p p') (orReturn c c').
Proof.
  intros Hp Hp'. unfold Steps.orReturn, orReturn.
  apply agrees_bind; [exact Hp|]. intros [e|]; [apply agrees_ret | exact Hp'].
Qed.

Lemma agrees_defer {A B} (d : Steps.Prog B) (d' : Go B)
      (body : Steps.Prog A) (body' : Go A) :
  agrees d d' -> agrees body body' ->
  agrees (Steps.defer d body) (defer d' body').
Proof.
  intros Hd Hb w. rewrite interp_defer, Hb, Hd. unfold defer.
  now destruct (body' w).
Qed.

Ltac agree :=
  repeat first
    [ apply agrees_ret
    | apply agrees_panic
    | apply agrees_perform
    | apply agrees_Run
    | apply agrees_orReturn
    | apply agrees_defer
    | apply agrees_bind
    | match goal with
      | |- forall _, agrees _ _ => first [intros [?|] | intro]
      | |- agrees (match ?x with _ => _ end) _ => destruct x
      | |- agrees (if ?b then _ else _) _ => destruct b
      end
    | progress cbv beta zeta ].

Lemma agrees_serverStatus (mongo_config : Mongo.t) :
  agrees (Steps.serverStatus mongo_config) (serverStatus mongo_config).
Proof. unfold Steps.serverStatus, serverStatus. agree. Qed.

Lemma agrees_pushConnections (client : Client) (connections : Connections.t) :
  agrees (Steps.pushConnections client connections)
         (pushConnections client connections).
Proof. unfold Steps.pushConnections, pushConnections. agree. Qed.

Lemma agrees_pushOpcounters (client : Client) (opscounters : Opcounters.t) :
  agrees (Steps.pushOpcounters client opscounters)
         (pushOpcounters client opscounters).
Proof. unfold Steps.pushOpcounters, pushOpcounters. agree. Qed.

Lemma agrees_pushMem (client : Client) (mem : Mem.t) :
  agrees (Steps.pushMem client mem) (pushMem client mem).
Proof. unfold Steps.pushMem, pushMem. agree. Qed.

Lemma agrees_pushGlobalLocks (client : Client) (glob : GlobalLock.t) :
  agrees (Steps.pushGlobalLocks client glob) (pushGlobalLocks client glob).
Proof. unfold Steps.pushGlobalLocks, pushGlobalLocks. agree. Qed.

Lemma agrees_pushExtraInfo (client : Client) (info : ExtraInfo.t) :
  agrees (Steps.pushExtraInfo client info) (pushExtraInfo client info).
Proof. unfold Steps.pushExtraInfo, pushExtraInfo. agree. Qed.

Lemma agrees_pushStats (statsd_config : Statsd.t) (status : ServerStatus.t) :
  agrees (Steps.pushStats statsd_config status)
         (pushStats statsd_config status).
Proof.
  unfold Steps.pushStats, pushStats, Steps.statsd.NewClient, statsd.NewClient.
  cbv zeta. apply agrees_bind; [agree|].
  intros r. destruct (snd r); [apply agrees_ret|].
  apply agrees_defer; [apply agrees_perform|].
  repeat first
    [ apply agrees_ret
    | apply agrees_pushConnections
    | apply agrees_pushOpcounters
    | apply agrees_pushMem
    | apply agrees_pushGlobalLocks
    | apply agrees_pushExtraInfo
    | apply agrees_orReturn ].
Qed.

(** Run to its end with nothing in between, the tree of the tick branch
    is [tickCase]: the same log, the same outcome. *)
Lemma interp_tickCase (config : Config.t) (w : World) :
  interp (Steps.tickCase config) w = tickCase config w.
Proof.
  revert w. change (agrees (Steps.tickCase config) (tickCase config)).
  unfold Steps.tickCase, tickCase.
  apply agrees_bind; [apply agrees_serverStatus|]. intros status.
  apply agrees_bind; [apply agrees_pushStats|]. intros [e|]; agree.
Qed.

(** ** The calls of a cycle *)

Lemma AllCalls_bind {A B} (q : Call -> bool) (p : Steps.Prog A)
      (f : A -> Steps.Prog B) :
  AllCalls q p -> (forall a, AllCalls q (f a)) ->
  AllCalls q (Steps.bind p f).
Proof.
  intros Hp Hf. induction p as [a | v | c k IH | cmd k IH]; cbn in *; auto.
  - destruct Hp as [Hc Hk]. split; auto.
  - destruct Hp as [Hc Hk]. split; auto.
Qed.

Lemma AllCalls_andThen {A B} (q : Call -> bool) (d : Steps.Prog B)
      (r : Steps.Prog A) :
  AllCalls q d -> AllCalls q r -> AllCalls q (Steps.andThen d r).
Proof.
  intros Hd Hr. induction d as [a | v | c k IH | cmd k IH]; cbn in *; auto.
  - destruct Hd as [Hc Hk]. split; auto.
  - destruct Hd as [Hc Hk]. split; auto.
Qed.

Lemma AllCalls_defer {A B} (q : Call -> bool) (d : Steps.Prog B)
      (body : Steps.Prog A) :
  AllCalls q d -> AllCalls q body -> AllCalls q (Steps.defer d body).
Proof.
  intros Hd Hb. induction body as [a | v | c k IH | cmd k IH]; cbn in *.
  - apply AllCalls_andThen; [exact Hd | exact I].
  - apply AllCalls_andThen; [exact Hd | exact I].
  - destruct Hb as [Hc Hk]. split; auto.
  - destruct Hb as [Hc Hk]. split; auto.
Qed.

Lemma AllCalls_perform (q : Call -> bool) (c : Call) :
  q c = true -> AllCalls q (Steps.perform c).
Proof. intros H. cbn. split; [exact H | exact (fun _ => I)]. Qed.

Lemma AllCalls_orReturn (q : Call -> bool) (p p' : Steps.Prog error) :
  AllCalls q p -> AllCalls q p' -> AllCalls q (Steps.orReturn p p').
Proof.
  intros Hp Hp'. unfold Steps.orReturn. apply AllCalls_bind; [exact Hp|].
  intros [e|]; [exact I | exact Hp'].
Qed.

Ltac all_calls :=
  repeat first
    [ exact I
    | apply AllCalls_perform; reflexivity
    | apply AllCalls_orReturn
    | apply AllCalls_defer
    | apply AllCalls_bind
    | match goal with
      | |- forall _, AllCalls _ _ => first [intros [?|] | intro]
      | |- AllCalls _ (match ?x with _ => _ end) => destruct x
      | |- AllCalls _ (if ?b then _ else _) => destruct b
      | |- AllCalls _ (Steps.mgo.Run _) =>
        split; [reflexivity | intros ?; exact I]
      end
    | progress cbv beta zeta ].

(** After the dial, [serverStatus] does not dial again. *)
Lemma serverStatus_dials_first (mongo_config : Mongo.t) :
  exists k,
    Steps.serverStatus mongo_config = Steps.Do (dialCall mongo_config) k
    /\ forall e, AllCalls afterDial (k e).
Proof.
  eexists. split; [reflexivity|].
  intros [e|]; cbn [Steps.bind]; [exact I|].
  all_calls.
Qed.

Lemma pushStats_afterDial (statsd_config : Statsd.t) (status : ServerStatus.t) :
  AllCalls afterDial (Steps.pushStats statsd_config status).
Proof.
  unfold Steps.pushStats, Steps.statsd.NewClient,
    Steps.pushConnections, Steps.pushOpcounters, Steps.pushMem,
    Steps.pushGlobalLocks, Steps.pushExtraInfo.
  all_calls.
Qed.

(** The first call of a cycle is the dial, and no later call of the
    cycle is a dial or stops the ticker. *)
Lemma tickCase_dials_first (config : Config.t) :
  exists k,
    Steps.tickCase config = Steps.Do (dialCall (Config.Mongo config)) k
    /\ forall e, AllCalls afterDial (k e).
Proof.
  destruct (serverStatus_dials_first (Config.Mongo config)) as (k & E & Hk).
  unfold Steps.tickCase. rewrite E. cbn [Steps.bind].
  eexists. split; [reflexivity|].
  intros e. cbv beta. apply AllCalls_bind; [apply Hk|].
  intros status. apply AllCalls_bind; [apply pushStats_afterDial|].
  intros [e'|]; all_calls.
Qed.

(** ** Runs of the interleaved process *)

Lemma moves_app (config : Config.t) (ms ms' : list Move) (st : Machine) :
  moves config (ms ++ ms') st
  = match moves config ms st with
    | Some st1 => moves config ms' st1
    | None => None
    end.
Proof.
  revert st. induction ms as [|m ms IH]; intros st; simpl; [reflexivity|].
  destruct (move config m st); [apply IH | reflexivity].
Qed.

Lemma with_world_same (s : Sched) : with_world s (world s) = s.
Proof. now destruct s. Qed.

(** A cycle underway can always be brought to its end by the loop
    goroutine alone, and then it has done what [interp] says: it is
    back at the [select] with the calls logged, or its panic has ended
    the process. *)
Lemma cycle_runs (config : Config.t) (rest : Steps.Prog unit) (s : Sched) :
  proc s = Running ->
  exists n,
    moves config (repeat CycleSteps n) (s, Some rest)
    = Some (match snd (interp rest (world s)) with
            | Returns _ =>
              (with_world s (fst (interp rest (world s))), None)
            | Panics v =>
              (with_proc (with_world s (fst (interp rest (world s))))
                         (Crashed v),
               Some (Steps.Raise v))
            end).
Proof.
  revert s. induction rest as [a | v | c k IH | cmd k IH]; intros s Hp.
  - exists 1%nat. cbn [repeat moves]. unfold move. cbn [fst snd].
    rewrite Hp. cbn. now rewrite with_world_same.
  - exists 1%nat. cbn [repeat moves]. unfold move. cbn [fst snd].
    rewrite Hp. cbn. now rewrite with_world_same.
  - destruct (IH (answer (env (world s)) (log (world s)) c)
                 (with_world s
                    (extend (world s)
                       [(c, answer (env (world s)) (log (world s)) c)]))
                 Hp) as (n & Hn).
    exists (S n). cbn [repeat moves]. unfold move at 1. cbn [fst snd].
    rewrite Hp. cbn [is_running cycleStep]. rewrite Hn. reflexivity.
  - destruct (IH (document (env (world s)) (log (world s)),
                  answer (env (world s)) (log (world s)) (CRun cmd))
                 (with_world s
                    (extend (world s)
                       [(CRun cmd,
                         answer (env (world s)) (log (world s)) (CRun cmd))]))
                 Hp) as (n & Hn).
    exists (S n). cbn [repeat moves]. unfold move at 1. cbn [fst snd].
    rewrite Hp. cbn [is_running cycleStep]. rewrite Hn. reflexivity.
Qed.

(** The move [LoopTakesTick] of [step] is a run of the interleaved
    process: the tick is taken and the cycle runs to its end with no
    other goroutine moving in between. *)
Lemma loopTick_interleaved (config : Config.t) (s s' : Sched) :
  step config LoopTakesTick s = Some s' ->
  exists n cycle,
    moves config (Outside LoopTakesTick :: repeat CycleSteps n) (s, None)
    = Some (s', cycle)
    /\ (cycle = None \/ exists v, proc s' = Crashed v).
Proof.
  unfold step, loopTick.
  destruct (proc s) eqn:Hp; try discriminate. cbn [is_running].
  destruct (loop_pc s) eqn:Hl; try discriminate.
  destruct (tick_pending s) eqn:Ht; try discriminate.
  intros E. injection E as <-.
  destruct (cycle_runs config (Steps.tickCase config) (tick_taken s) Hp)
    as (n & Hn).
  exists n. cbn [moves]. unfold move at 1. cbn [fst snd].
  rewrite Hp, Hl, Ht. cbn [is_running]. rewrite Hn.
  cbn [world tick_taken]. rewrite interp_tickCase.
  destruct (tickCase config (world s)) as [w1 [u | v]]; cbn [fst snd].
  - exists None. split; [|now left].
    unfold with_world, tick_taken. cbn. now rewrite Hl, Hp.
  - exists (Some (Steps.Raise v)). split; [|right; now exists v].
    unfold with_proc, with_world, tick_taken. cbn. now rewrite Hl.
Qed.

(** Every run of [step] is a run of the interleaved process. *)
Lemma run_interleaved (config : Config.t) (ls : list Label) (s s' : Sched) :
  run config ls s = Some s' ->
  exists ms cycle, moves config ms (s, None) = Some (s', cycle).
Proof.
  revert s. induction ls as [|l ls IH]; intros s; simpl.
  - intros E. injection E as <-. now exists [], None.
  - destruct (step config l s) as [s1|] eqn:Hstep; [|discriminate].
    intros Hrun.
    assert (Hfirst : exists ms1 cycle1,
               moves config ms1 (s, None) = Some (s1, cycle1)
               /\ (cycle1 = None \/ exists v, proc s1 = Crashed v)).
    { destruct l.
      2:{ exists [Outside (SignalArrives sig)], None. split; [|now left].
          cbn [moves]. unfold move. cbn [fst snd].
          revert Hstep. unfold step.
          destruct (is_running (proc s)); [|discriminate].
          intros ->. reflexivity. }
      3:{ destruct (loopTick_interleaved config s s1 Hstep)
            as (n & cycle & Hm & Hc).
          now exists (Outside LoopTakesTick :: repeat CycleSteps n), cycle. }
      all: match goal with
           | Hs : step _ ?l _ = _ |- _ =>
             exists [Outside l], None; split; [|now left];
               cbn [moves]; unfold move; cbn [fst snd];
               revert Hs; unfold step;
               destruct (is_running (proc s)); [|discriminate];
               intros ->; reflexivity
           end. }
    destruct Hfirst as (ms1 & cycle1 & Hm1 & [-> | (v & Hv)]).
    + destruct (IH s1 Hrun) as (ms & cycle & Hm).
      exists (ms1 ++ ms), cycle. now rewrite moves_app, Hm1.
    + destruct ls as [|l' ls].
      * simpl in Hrun. injection Hrun as <-. now exists ms1, cycle1.
      * simpl in Hrun. unfold step in Hrun. rewrite Hv in Hrun.
        discriminate Hrun.
Qed.

Lemma countMoves_snoc (p : Move -> bool) (ms : list Move) (m : Move) :
  countMoves p (ms ++ [m])
  = (countMoves p ms + (if p m then 1 else 0))%nat.
Proof.
  unfold countMoves. rewrite filter_app, length_app. cbn [filter].
  now destruct (p m).
Qed.

Lemma boot_inv (config : Config.t) (e : Env) :
  interleaved_inv config [] (boot e).
Proof.
  unfold interleaved_inv, boot, start.
  cbn [fst snd world main_pc loop_pc quit_closed tick_pending
       ticker_running proc log].
  repeat split; try discriminate; try reflexivity.
  left. now split.
Qed.

Lemma countCalls_snoc (p : Call -> bool) (l : list Entry) (c : Call)
      (a : error) :
  countCalls p (l ++ [(c, a)])
  = (countCalls p l + (if p c then 1 else 0))%nat.
Proof.
  unfold countCalls. rewrite filter_app, length_app. cbn [filter fst].
  now destruct (p c).
Qed.

Ltac seven := split; [|split; [|split; [|split; [|split; [|split]]]]].

Ltac shown :=
  cbn [fst snd world main_pc loop_pc quit_closed tick_pending
       ticker_running proc isOutside isLoopTakesTick isTickerFires
       with_world with_proc tick_taken extend log];
  rewrite ?countCalls_snoc;
  cbn [isTickerStop isDial];
  rewrite ?Nat.add_0_r.

Lemma move_inv (config : Config.t) (ms : list Move) (m : Move)
      (st st' : Machine) :
  interleaved_inv config ms st ->
  move config m st = Some st' ->
  interleaved_inv config (ms ++ [m]) st'.
Proof.
  intros I Hmove.
  destruct st as [[w mp lp qc tp tr p] cycle].
  unfold interleaved_inv, cyclesTaken, ticksFired in *.
  rewrite !countMoves_snoc.
  set (T := countMoves (isOutside isLoopTakesTick) ms) in *.
  set (F := countMoves (isOutside isTickerFires) ms) in *.
  cbn [fst snd world main_pc loop_pc quit_closed tick_pending
       ticker_running proc] in I.
  destruct I as (I1 & I2 & I3 & I4 & I5 & I6 & I7).
  unfold move in Hmove. cbn [fst snd proc] in Hmove.
  destruct p; try discriminate Hmove. cbn [is_running] in Hmove.
  destruct m as [l|].
  - destruct l.
    + (* the ticker fires *)
      unfold step in Hmove.
      cbn [proc is_running ticker_running] in Hmove.
      destruct tr; [|discriminate Hmove]. injection Hmove as <-.
      shown. seven; auto.
      destruct tp; lia.
    + (* a signal arrives *)
      unfold step in Hmove. cbn [proc is_running main_pc] in Hmove.
      destruct mp; try discriminate Hmove. injection Hmove as <-.
      shown. seven; auto; try discriminate.
      intros Hq. destruct (I2 Hq) as [H | H]; discriminate H.
    + (* main goes on *)
      unfold step, mainStep in Hmove.
      cbn [proc is_running main_pc] in Hmove.
      destruct mp; try discriminate Hmove; injection Hmove as <-;
        cbn [fmt.Println perform]; shown.
      * seven; auto; try discriminate.
        intros Hq. destruct (I2 Hq) as [H | H]; discriminate H.
      * seven; auto; try discriminate.
        intros Hl. now destruct (I1 Hl).
      * seven; auto; try discriminate.
    + (* the loop takes the tick *)
      destruct cycle as [rest|]; [discriminate Hmove|].
      cbn [loop_pc tick_pending] in Hmove.
      destruct lp; [|discriminate Hmove].
      destruct tp; [|discriminate Hmove]. injection Hmove as <-.
      shown. seven; auto; try discriminate; try lia.
      right. destruct I7 as [[D _] | [_ D]]; [|discriminate D].
      split; [lia | reflexivity].
    + (* the loop takes the closed quit *)
      destruct cycle as [rest|]; [discriminate Hmove|].
      unfold step, loopQuit in Hmove.
      cbn [proc is_running loop_pc quit_closed] in Hmove.
      destruct lp; [|discriminate Hmove].
      destruct qc; [|discriminate Hmove]. injection Hmove as <-.
      cbn [perform]. shown. seven; auto.
      rewrite I5. reflexivity.
  - (* the cycle underway goes on *)
    destruct cycle as [rest|]; [|discriminate Hmove].
    injection Hmove as <-.
    assert (Hlp : lp = Selecting).
    { destruct lp; [reflexivity|]. destruct (I1 eq_refl) as (_ & _ & H).
      discriminate H. }
    subst lp.
    assert (Hrest : AllCalls afterDial rest
                    /\ countCalls isDial (log w) = T
                    \/ rest = Steps.tickCase config
                       /\ S (countCalls isDial (log w)) = T).
    { destruct I7 as [[D A] | [D E]]; [left; now split|].
      right. injection E as ->. now split. }
    clear I7.
    destruct Hrest as [[A D] | [E D]].
    + destruct rest as [a | v | c k | cmd k]; cbn [AllCalls] in A;
        cbn [cycleStep]; shown.
      * seven; auto; try discriminate.
      * seven; auto; try discriminate.
      * destruct A as [Hc Hk].
        apply andb_true_iff in Hc as [Hd Hs].
        apply negb_true_iff in Hd, Hs. rewrite Hd, Hs.
        rewrite ?Nat.add_0_r.
        seven; auto; try discriminate.
      * destruct A as [Hc Hk].
        seven; auto; try discriminate.
    + destruct (tickCase_dials_first config) as (k & Ek & Hk).
      rewrite E, Ek. cbn [cycleStep]. shown.
      seven; auto; try discriminate.
      left. split; [unfold dialCall; cbn [isDial]; lia | apply Hk].
Qed.

Lemma moves_inv (config : Config.t) (e : Env) (ms : list Move)
      (st : Machine) :
  moves config ms (boot e) = Some st -> interleaved_inv config ms st.
Proof.
  revert st. induction ms as [|m ms IH] using rev_ind; intros st.
  - simpl. intros E. injection E as <-. apply boot_inv.
  - rewrite moves_app.
    destruct (moves config ms (boot e)) as [st1|]; [|discriminate].
    simpl. destruct (move config m st1) as [st2|] eqn:Hmove; [|discriminate].
    intros E. injection E as <-.
    apply (move_inv config ms m st1 st2); [now apply IH | exact Hmove].
Qed.

(** With the loop at its [select] and the ticker running, a tick can
    fire and be taken. *)
Lemma next_cycle (config : Config.t) (s : Sched) :
  proc s = Running ->
  loop_pc s = Selecting ->
  ticker_running s = true ->
  moves config [Outside TickerFires; Outside LoopTakesTick] (s, None)
  = Some (tick_taken s, Some (Steps.tickCase config)).
Proof.
  destruct s as [w mp lp qc tp tr p].
  cbn [proc loop_pc ticker_running]. intros -> -> ->. reflexivity.
Qed.

(** The first step of a cycle just taken is the dial. *)
Lemma first_step_dials (config : Config.t) (s : Sched) :
  proc s = Running ->
  exists s' rest a,
    move config CycleSteps (s, Some (Steps.tickCase config))
    = Some (s', Some rest)
    /\ log (world s')
       = log (world s) ++ [(dialCall (Config.Mongo config), a)].
Proof.
  intros Hp. destruct (tickCase_dials_first config) as (k & Ek & _).
  unfold move. cbn [fst snd]. rewrite Hp, Ek. cbn [is_running cycleStep].
  eexists _, _, _. split; reflexivity.
Qed.

Lemma Forall_repeat {A} (P : A -> Prop) (x : A) (n : nat) :
  P x -> Forall P (repeat x n).
Proof. intros H. induction n; cbn; auto. Qed.

Lemma loopOnly_tick_then_take :
  Forall loopOnly [Outside TickerFires; Outside LoopTakesTick].
Proof.
  apply Forall_cons; [right; now left|].
  apply Forall_cons; [right; now right|]. apply Forall_nil.
Qed.

(** X14.  Until a signal is received the program keeps polling, also
    while a cycle is underway.  In every state the process reaches with
    [main] still waiting at line 311 (in the middle of a cycle too), the
    loop goroutine has not returned, the ticker runs and was never
    stopped, [quit] is open and the process has not exited.  And while
    the process runs, the ticker and the loop goroutine alone can go on
    from there, every call of the cycle being answered, until the cycle
    underway has crashed the process or a further cycle is taken, whose
    first step is the dial. *)
Theorem X14_polls_until_signal (config : Config.t) (e : Env)
        (ms : list Move) (s : Sched) (cycle : option (Steps.Prog unit)) :
  moves config ms (boot e) = Some (s, cycle) ->
  main_pc s = AwaitSignal ->
  loop_pc s <> LoopReturned
  /\ ticker_running s = true
  /\ quit_closed s = false
  /\ proc s <> Exited
  /\ countCalls isTickerStop (log (world s)) = 0%nat
  /\ (proc s = Running ->
      exists ms' s' cycle',
        Forall loopOnly ms'
        /\ moves config ms' (s, cycle) = Some (s', cycle')
        /\ main_pc s' = AwaitSignal
        /\ ((exists v, proc s' = Crashed v)
            \/ (In (Outside LoopTakesTick) ms'
                /\ proc s' = Running
                /\ cycle' = Some (Steps.tickCase config)
                /\ exists s'' rest a,
                    move config CycleSteps (s', cycle')
                    = Some (s'', Some rest)
                    /\ log (world s'')
                       = log (world s')
                         ++ [(dialCall (Config.Mongo config), a)]))).
Proof.
  intros Hrun Hm.
  destruct (moves_inv config e ms (s, cycle) Hrun)
    as (I1 & I2 & I3 & I4 & I5 & _ & _).
  cbn [fst snd] in I1, I2, I3, I4, I5.
  assert (Hq : quit_closed s = false).
  { destruct (quit_closed s); [|reflexivity].
    destruct (I2 eq_refl) as [H | H]; rewrite Hm in H; discriminate H. }
  assert (Hl : loop_pc s = Selecting).
  { destruct (loop_pc s); [reflexivity|].
    destruct (I1 eq_refl) as (_ & H & _). rewrite Hq in H. discriminate H. }
  assert (Ht : ticker_running s = true).
  { destruct (ticker_running s); [reflexivity|].
    rewrite (I4 eq_refl) in Hl. discriminate Hl. }
  split; [rewrite Hl; discriminate|]. split; [exact Ht|].
  split; [exact Hq|]. split.
  { intros Hp. rewrite (I3 Hp) in Hm. discriminate Hm. }
  split; [now rewrite Hl in I5|].
  intros Hp. clear I1 I2 I3 I4 I5 Hrun.
  assert (Hnext : forall s0,
             proc s0 = Running -> loop_pc s0 = Selecting ->
             ticker_running s0 = true -> main_pc s0 = AwaitSignal ->
             exists s' cycle',
               moves config [Outside TickerFires; Outside LoopTakesTick]
                     (s0, None) = Some (s', cycle')
               /\ main_pc s' = AwaitSignal
               /\ proc s' = Running
               /\ cycle' = Some (Steps.tickCase config)
               /\ exists s'' rest a,
                   move config CycleSteps (s', cycle')
                   = Some (s'', Some rest)
                   /\ log (world s'')
                      = log (world s')
                        ++ [(dialCall (Config.Mongo config), a)]).
  { intros s0 Hp0 Hl0 Ht0 Hm0.
    exists (tick_taken s0), (Some (Steps.tickCase config)).
    split; [now apply next_cycle|]. split; [exact Hm0|].
    split; [exact Hp0|]. split; [reflexivity|].
    now apply first_step_dials. }
  destruct cycle as [rest|].
  - destruct (cycle_runs config rest s Hp) as (n & Hn).
    destruct (snd (interp rest (world s))) as [u | v].
    + destruct (Hnext (with_world s (fst (interp rest (world s))))
                      Hp Hl Ht Hm)
        as (s' & cycle' & Hmv & Hm' & Hp' & Hc' & Hdial).
      exists (repeat CycleSteps n
              ++ [Outside TickerFires; Outside LoopTakesTick]), s', cycle'.
      split.
      { apply Forall_app. split.
        - apply Forall_repeat. now left.
        - exact loopOnly_tick_then_take. }
      split; [now rewrite moves_app, Hn|]. split; [exact Hm'|].
      right. split; [apply in_or_app; right; right; now left|].
      split; [exact Hp'|]. split; [exact Hc' | exact Hdial].
    + exists (repeat CycleSteps n),
        (with_proc (with_world s (fst (interp rest (world s)))) (Crashed v)),
        (Some (Steps.Raise v)).
      split; [apply Forall_repeat; now left|].
      split; [exact Hn|]. split; [exact Hm|].
      left. now exists v.
  - destruct (Hnext s Hp Hl Ht Hm)
      as (s' & cycle' & Hmv & Hm' & Hp' & Hc' & Hdial).
    exists [Outside TickerFires; Outside LoopTakesTick], s', cycle'.
    split; [exact loopOnly_tick_then_take|].
    split; [exact Hmv|]. split; [exact Hm'|].
    right. split; [right; now left|].
    split; [exact Hp'|]. split; [exact Hc' | exact Hdial].
Qed.

(** In the middle of a cycle, before the query. *)
Lemma X14_polls_until_signal_witness :
  exists s cycle,
    moves sample_config midCycle (boot third_refused) = Some (s, cycle)
    /\ main_pc s = AwaitSignal
    /\ cycle <> None
    /\ ticker_running s = true
    /\ exists ms' s' cycle',
        Forall loopOnly ms'
        /\ moves sample_config ms' (s, cycle) = Some (s', cycle').
Proof.
  eexists _, _. split; [reflexivity|].
  split; [reflexivity|]. split; [discriminate|].
  match goal with
  | |- ticker_running ?s = true /\ (exists _ _ _, _ /\ moves _ _ (_, ?c) = _) =>
    destruct (X14_polls_until_signal sample_config third_refused midCycle
                s c eq_refl eq_refl)
      as (_ & Ht & _ & _ & _ & Hnext)
  end.
  split; [exact Ht|].
  destruct (Hnext eq_refl) as (ms' & s' & cycle' & Hf & Hmv & _).
  now exists ms', s', cycle'.
Defined.

(** X15.  The books of a run, in the middle of a cycle too.  A cycle is
    taken only on a tick of its own, so no more cycles are taken than
    ticks have fired (ticks that fire while one waits are merged).  Every
    cycle taken has dialled exactly once, except that the cycle underway
    may not have dialled yet, and then it has made no call at all: the
    dials in the log are the cycles taken, or one fewer.  [ticker.Stop]
    is called at most once, namely exactly when the ticker no longer
    runs. *)
Theorem X15_cycles_ticks_dials (config : Config.t) (e : Env)
        (ms : list Move) (s : Sched) (cycle : option (Steps.Prog unit)) :
  moves config ms (boot e) = Some (s, cycle) ->
  (cyclesTaken ms <= ticksFired ms)%nat
  /\ (countCalls isDial (log (world s)) <= cyclesTaken ms
      <= S (countCalls isDial (log (world s))))%nat
  /\ (cyclesTaken ms = S (countCalls isDial (log (world s)))
      <-> cycle = Some (Steps.tickCase config))
  /\ (cycle = None -> countCalls isDial (log (world s)) = cyclesTaken ms)
  /\ (countCalls isTickerStop (log (world s)) <= 1)%nat
  /\ (countCalls isTickerStop (log (world s)) = 1%nat
      <-> ticker_running s = false).
Proof.
  intros Hrun.
  destruct (moves_inv config e ms (s, cycle) Hrun)
    as (I1 & _ & _ & I4 & I5 & I6 & I7).
  cbn [fst snd] in I1, I4, I5, I6, I7.
  split; [lia|].
  assert (Hfresh : cycle = Some (Steps.tickCase config) ->
                   countCalls isDial (log (world s)) <> cyclesTaken ms).
  { intros -> D.
    destruct I7 as [[_ A] | [D' _]]; [|lia].
    destruct (tickCase_dials_first config) as (k & Ek & _).
    rewrite Ek in A. destruct A as [A _]. discriminate A. }
  split; [destruct I7 as [[D _] | [D _]]; lia|]. split.
  { split.
    - intros E. destruct I7 as [[D _] | [_ C]]; [lia | exact C].
    - intros C. destruct I7 as [[D _] | [D _]];
        [elim (Hfresh C D) | now symmetry]. }
  split.
  { intros ->. destruct I7 as [[D _] | [_ C]]; [exact D | discriminate C]. }
  rewrite I5. split; [destruct (loop_pc s); lia|].
  destruct (loop_pc s) eqn:Hl.
  - split; [discriminate|]. intros Ht. discriminate (I4 Ht).
  - split; [|reflexivity]. intros _. now destruct (I1 eq_refl).
Qed.

(** A cycle just taken: one cycle, no dial yet. *)
Lemma X15_cycles_ticks_dials_witness :
  exists s cycle,
    moves sample_config [Outside TickerFires; Outside LoopTakesTick]
          (boot calm) = Some (s, cycle)
    /\ cyclesTaken [Outside TickerFires; Outside LoopTakesTick] = 1%nat
    /\ countCalls isDial (log (world s)) = 0%nat
    /\ cycle = Some (Steps.tickCase sample_config).
Proof.
  eexists _, _. split; [reflexivity|].
  split; [reflexivity|]. split; [reflexivity|].
  apply (X15_cycles_ticks_dials sample_config calm
           [Outside TickerFires; Outside LoopTakesTick]
           (tick_taken (start calm)) (Some (Steps.tickCase sample_config))
           eq_refl).
  reflexivity.
Defined.
